(** * TALENVY: derived metrics of the analysis scripts

    A shallow embedding of the metric computations of the repository:

    - [Stock__Analysis/stock_dashboard.py], [calculate_metrics]
      (daily return, 20/50-row moving averages, 14-row RSI per ticker);
    - [scripts/enhanced_sales_analysis.py], [EnhancedSalesAnalysis._prepare_data]
      (shipping days and their interval buckets);
    - [scripts/sales_analysis.py], [SalesPerformanceAnalysis.marketing_campaign_impact]
      (per-campaign aggregates and the lift over "No Campaign");
    - [scripts/clean_retail_data.py], [clean_retail_data], step 5 (IQR capping).

    The scripts compute on pandas columns of Python floats.  A float is
    modelled as an exact rational extended with the two infinities and NaN:
    the special values follow IEEE-754 (x/0, 0/0, inf - inf, comparisons with
    NaN), finite arithmetic is exact (rounding is not modelled) and the sign
    of zero is not modelled.  Where a column of whole numbers is kept as
    int64 and a result depends on it (the campaign totals), the int64 column
    is modelled beside the float one, with its wrap-around. *)

From Stdlib Require Import List Bool Arith ZArith QArith Qround Lia Lqa.
From Stdlib Require Import String Ascii Permutation Sorted.
Import ListNotations.

Local Open Scope Q_scope.

(** ** Python floats *)

Module PyFloat.

Inductive pyfloat : Type :=
| Fin (q : Q)
| PInf
| NInf
| NaN.

Definition isna (x : pyfloat) : bool :=
  match x with NaN => true | _ => false end.

Definition isinf (x : pyfloat) : bool :=
  match x with PInf | NInf => true | _ => false end.

Definition isfinite (x : pyfloat) : bool :=
  match x with Fin _ => true | _ => false end.

Definition Qltb (a b : Q) : bool := negb (Qle_bool b a).

(** Sign of a rational: the numerator decides. *)
Definition Qsgn (a : Q) : Z := Z.sgn (Qnum a).

Definition fneg (x : pyfloat) : pyfloat :=
  match x with
  | Fin a => Fin (- a)
  | PInf => NInf
  | NInf => PInf
  | NaN => NaN
  end.

Definition fadd (x y : pyfloat) : pyfloat :=
  match x, y with
  | NaN, _ | _, NaN => NaN
  | PInf, NInf | NInf, PInf => NaN
  | PInf, _ | _, PInf => PInf
  | NInf, _ | _, NInf => NInf
  | Fin a, Fin b => Fin (a + b)
  end.

Definition fsub (x y : pyfloat) : pyfloat := fadd x (fneg y).

(** An infinity of the sign of [s]; NaN when [s] is zero (inf * 0, 0 / 0). *)
Definition signed_inf (s : Z) : pyfloat :=
  match s with
  | Z0 => NaN
  | Zpos _ => PInf
  | Zneg _ => NInf
  end.

Definition fsign (x : pyfloat) : Z :=
  match x with
  | Fin a => Qsgn a
  | PInf => 1%Z
  | NInf => (-1)%Z
  | NaN => 0%Z
  end.

Definition fmul (x y : pyfloat) : pyfloat :=
  match x, y with
  | NaN, _ | _, NaN => NaN
  | Fin a, Fin b => Fin (a * b)
  | _, _ => signed_inf (fsign x * fsign y)
  end.

(** numpy float division: a finite value over zero is an infinity of its
    sign, 0/0 and inf/inf are NaN, a finite value over an infinity is 0. *)
Definition fdiv (x y : pyfloat) : pyfloat :=
  match x, y with
  | NaN, _ | _, NaN => NaN
  | Fin a, Fin b => if Qeq_bool b 0 then signed_inf (Qsgn a) else Fin (a / b)
  | Fin _, _ => Fin 0
  | _, Fin b => signed_inf (fsign x * (if Qeq_bool b 0 then 1 else Qsgn b))
  | _, _ => NaN
  end.

(** Comparisons: every comparison with NaN is False. *)
Definition flt (x y : pyfloat) : bool :=
  match x, y with
  | NaN, _ | _, NaN => false
  | Fin a, Fin b => Qltb a b
  | NInf, NInf => false
  | NInf, _ => true
  | PInf, _ => false
  | Fin _, PInf => true
  | Fin _, NInf => false
  end.

Definition fgt (x y : pyfloat) : bool := flt y x.

(** Equality of floats as values: rationals up to [Qeq]; NaN is identified
    with itself here (this is the equality of the table cells, not Python's
    [==]). *)
Definition feq (x y : pyfloat) : Prop :=
  match x, y with
  | Fin a, Fin b => a == b
  | PInf, PInf | NInf, NInf | NaN, NaN => True
  | _, _ => False
  end.

Definition of_Z (z : Z) : pyfloat := Fin (inject_Z z).

(** [round(x, 2)] of numpy: to the nearest multiple of 1/100, ties to the
    even multiple; the special values are kept. *)
Definition Qround_half_even (q : Q) : Z :=
  let f := Qfloor q in
  let r := q - inject_Z f in
  if Qltb r (1#2) then f
  else if Qltb (1#2) r then (f + 1)%Z
  else if Z.even f then f else (f + 1)%Z.

Definition Qround2 (q : Q) : Q := inject_Z (Qround_half_even (q * 100)) / 100.

Definition fround2 (x : pyfloat) : pyfloat :=
  match x with
  | Fin a => Fin (Qround2 a)
  | _ => x
  end.

Lemma Qltb_lt (a b : Q) : Qltb a b = true <-> a < b.
Proof.
  unfold Qltb. rewrite negb_true_iff.
  split; intro H.
  - apply Qnot_le_lt. intro Hle. apply Qle_bool_iff in Hle. congruence.
  - destruct (Qle_bool b a) eqn:E; [|reflexivity].
    apply Qle_bool_iff in E. exfalso. apply (Qlt_not_le _ _ H E).
Qed.

Lemma Qltb_ge (a b : Q) : Qltb a b = false <-> b <= a.
Proof.
  unfold Qltb. rewrite negb_false_iff. apply Qle_bool_iff.
Qed.

Lemma Qeq_bool_false (a b : Q) : ~ a == b -> Qeq_bool a b = false.
Proof.
  intro H. destruct (Qeq_bool a b) eqn:E; [|reflexivity].
  apply Qeq_bool_iff in E. contradiction.
Qed.

Lemma Qeq_bool_true (a b : Q) : a == b -> Qeq_bool a b = true.
Proof. apply Qeq_bool_iff. Qed.

Lemma feq_refl (x : pyfloat) : feq x x.
Proof. destruct x; simpl; auto. reflexivity. Qed.

Lemma feq_sym (x y : pyfloat) : feq x y -> feq y x.
Proof. destruct x, y; simpl; auto. intro H; symmetry; exact H. Qed.

Lemma feq_trans (x y z : pyfloat) : feq x y -> feq y z -> feq x z.
Proof.
  destruct x, y, z; simpl; auto; try contradiction.
  intros H1 H2. rewrite H1. exact H2.
Qed.

End PyFloat.
Import PyFloat.

(** ** Shipping intervals: [EnhancedSalesAnalysis._prepare_data] *)

Module Shipping.

(** The two date columns of a row, as day numbers; [None] is a missing
    date (NaT). *)
Record order : Type := {
  order_date : option Z;
  ship_date : option Z
}.

(** [(ship_date - order_date).dt.days]: whole days, NaN when a date is
    missing. *)
Definition shipping_days (r : order) : pyfloat :=
  match ship_date r, order_date r with
  | Some s, Some o => of_Z (s - o)
  | _, _ => NaN
  end.

(** [bins.searchsorted(x, side="left")] on increasing bins: the number of
    edges strictly below [x]. *)
Fixpoint searchsorted_left (bins : list pyfloat) (x : pyfloat) : nat :=
  match bins with
  | [] => 0
  | b :: bs => if flt b x then S (searchsorted_left bs x) else 0
  end.

(** [pd.cut(x, bins, labels=labels)] with the defaults [right=True] and
    [include_lowest=False]: the cell is missing when [x] is missing or falls
    left of (or on) the first edge or right of the last one, and carries the
    label of its interval otherwise. *)
Definition cut (x : pyfloat) (bins : list pyfloat) (labels : list string)
  : option string :=
  let ids := searchsorted_left bins x in
  if isna x || (ids =? List.length bins)%nat || (ids =? 0)%nat then None
  else nth_error labels (ids - 1).

Definition shipping_bins : list pyfloat := [Fin 0; Fin 7; Fin 30; PInf].

Definition shipping_labels : list string :=
  ["Within 7 days"; "Within 30 days"; "After 30 days"]%string.

Definition shipping_interval (days : pyfloat) : option string :=
  cut days shipping_bins shipping_labels.

(** The two columns [_prepare_data] adds when both dates are present. *)
Definition _prepare_data (data : list order)
  : list (order * pyfloat * option string) :=
  map (fun r => (r, shipping_days r, shipping_interval (shipping_days r))) data.

(** The shipping-interval column for a series of whole shipping days. *)
Definition shipping_interval_of_days (days : list Z) : list (option string) :=
  map (fun d => shipping_interval (of_Z d)) days.

(** *** Facts *)

Local Open Scope string_scope.

(** The bucket of a finite number of days, case by case. *)
Lemma shipping_interval_fin (q : Q) :
  shipping_interval (Fin q) =
    if Qltb 0 q then
      if Qltb 7 q then
        if Qltb 30 q then Some "After 30 days" else Some "Within 30 days"
      else Some "Within 7 days"
    else None.
Proof.
  unfold shipping_interval, cut, shipping_bins, shipping_labels. simpl.
  destruct (Qltb 0 q); [|reflexivity].
  destruct (Qltb 7 q); [|reflexivity].
  destruct (Qltb 30 q); reflexivity.
Qed.

Lemma shipping_interval_nan : shipping_interval NaN = None.
Proof. reflexivity. Qed.

(** Every strictly positive finite value gets one of the three labels. *)
Lemma shipping_interval_positive (q : Q) :
  0 < q ->
  exists l, shipping_interval (Fin q) = Some l /\ In l shipping_labels.
Proof.
  intro Hq. rewrite shipping_interval_fin.
  apply Qltb_lt in Hq. rewrite Hq.
  destruct (Qltb 7 q); [destruct (Qltb 30 q)|];
    eexists; (split; [reflexivity|]); simpl; auto.
Qed.

(** C1, as stated, fails on the code: a value below the lowest edge gets no
    bucket, and in the series [3, 10, 45, 0, 7] the fourth cell is missing
    instead of "Within 7 days". *)
Lemma shipping_series_as_claimed_fails :
  shipping_interval (of_Z (-1)) = None /\
  shipping_interval_of_days [3; 10; 45; 0; 7]%Z =
    [Some "Within 7 days"; Some "Within 30 days"; Some "After 30 days";
     None; Some "Within 7 days"] /\
  shipping_interval_of_days [3; 10; 45; 0; 7]%Z <>
    [Some "Within 7 days"; Some "Within 30 days"; Some "After 30 days";
     Some "Within 7 days"; Some "Within 7 days"].
Proof.
  split; [reflexivity|]. split; [reflexivity|].
  intro H. vm_compute in H. discriminate H.
Qed.

(** C1, amended: with the edges (0,7], (7,30], (30,inf] a value in (0, 7]
    (the upper edge 7 included) falls in the first bucket, a value strictly
    below the lowest edge gets no bucket, and the series [3, 10, 45, 7] is
    bucketed as ["Within 7 days", "Within 30 days", "After 30 days",
    "Within 7 days"]. *)
Theorem shipping_first_bucket (q : Q) :
  (0 < q /\ q <= 7 -> shipping_interval (Fin q) = Some "Within 7 days") /\
  (q < 0 -> shipping_interval (Fin q) = None) /\
  shipping_interval_of_days [3; 10; 45; 7]%Z =
    [Some "Within 7 days"; Some "Within 30 days"; Some "After 30 days";
     Some "Within 7 days"].
Proof.
  rewrite shipping_interval_fin. repeat split.
  - intros [H0 H7]. apply Qltb_lt in H0. apply Qltb_ge in H7.
    rewrite H0, H7. reflexivity.
  - intro Hneg. assert (Qltb 0 q = false) as ->; [|reflexivity].
    apply Qltb_ge. apply Qlt_le_weak. exact Hneg.
Qed.

Lemma shipping_first_bucket_witness :
  shipping_interval (Fin 7) = Some "Within 7 days" /\
  shipping_interval (Fin (-2)) = None.
Proof.
  split.
  - apply (proj1 (shipping_first_bucket 7)). split; lra.
  - apply (proj1 (proj2 (shipping_first_bucket (-2)))). lra.
Defined.

(** C7 at its failing input: an order shipped on the day it was placed has
    zero shipping days, a finite non-negative value, and is assigned none of
    the three buckets. *)
Theorem same_day_order_unlabeled (d : Z) :
  map snd (_prepare_data [{| order_date := Some d; ship_date := Some d |}])
    = [None].
Proof.
  unfold _prepare_data, shipping_days. simpl.
  rewrite Z.sub_diag. reflexivity.
Qed.

End Shipping.

(** ** Column operations of pandas used by the scripts *)

Module Series.

Definition series : Type := list pyfloat.

Fixpoint map2 {A B C : Type} (f : A -> B -> C) (l1 : list A) (l2 : list B)
  : list C :=
  match l1, l2 with
  | a :: l1', b :: l2' => f a b :: map2 f l1' l2'
  | _, _ => []
  end.

(** [s.shift(1)]: every value moves one row down, the first row is NaN. *)
Definition shift1 (s : series) : series := firstn (List.length s) (NaN :: s).

(** [s.diff()] is [s - s.shift(1)]. *)
Definition diff (s : series) : series := map2 fsub s (shift1 s).

(** [s.ffill()]: a missing value takes the last value seen before it. *)
Fixpoint ffill_from (last : pyfloat) (s : series) : series :=
  match s with
  | [] => []
  | x :: xs =>
      if isna x then last :: ffill_from last xs else x :: ffill_from x xs
  end.

Definition ffill (s : series) : series := ffill_from NaN s.

(** [s.pct_change()]: the default pads missing values forward, then
    [data / data.shift(1) - 1]. *)
Definition pct_change (s : series) : series :=
  let data := ffill s in
  map2 (fun x p => fsub (fdiv x p) (Fin 1)) data (shift1 data).

(** [s.where(cond, other)] with the condition computed from [s] itself. *)
Definition where_ (cond : pyfloat -> bool) (other : pyfloat) (s : series)
  : series :=
  map (fun x => if cond x then x else other) s.

(** The rows of the trailing window of size [N] that ends at row [i]
    (0-based): rows [max 0 (i+1-N)] to [i]. *)
Definition window_at {A : Type} (N : nat) (s : list A) (i : nat) : list A :=
  skipn (S i - N) (firstn (S i) s).

(** The observations of a window: the rolling aggregations skip NaN, and
    pandas turns the infinities into NaN before it aggregates. *)
Definition observed (w : series) : list Q :=
  flat_map (fun x => match x with Fin q => [q] | _ => [] end) w.

Definition Qsum (l : list Q) : Q := fold_right Qplus 0 l.

Definition Qmean (l : list Q) : Q :=
  Qsum l / inject_Z (Z.of_nat (List.length l)).

(** The mean of a window: NaN unless it holds at least [minp] (and at least
    one) observations. *)
Definition window_mean (minp : nat) (w : series) : pyfloat :=
  let obs := observed w in
  let nobs := List.length obs in
  if ((minp <=? nobs) && (0 <? nobs))%nat then Fin (Qmean obs) else NaN.

(** [s.rolling(window=N).mean()]; [min_periods] defaults to [N]. *)
Definition rolling_mean (N : nat) (s : series) : series :=
  map (fun i => window_mean N (window_at N s i)) (seq 0 (List.length s)).

(** [s.dropna()]. *)
Definition dropna (l : series) : series :=
  filter (fun x => negb (isna x)) l.

(** A stable insertion sort, the order given by [leb]. *)
Fixpoint insert_by {A : Type} (leb : A -> A -> bool) (x : A) (l : list A)
  : list A :=
  match l with
  | [] => [x]
  | y :: l' => if leb x y then x :: l else y :: insert_by leb x l'
  end.

Fixpoint sort_by {A : Type} (leb : A -> A -> bool) (l : list A) : list A :=
  match l with
  | [] => []
  | x :: l' => insert_by leb x (sort_by leb l')
  end.

End Series.
Import Series.

(** ** Stock metrics: [calculate_metrics] of [stock_dashboard.py] *)

Module Stock.

(** A row of the price table; [price] is the column [price_col] resolves to. *)
Record stock_row : Type := {
  Ticker : string;
  Date : Z;
  price : pyfloat
}.

(** A row of the result: the input row and the four derived columns. *)
Record metrics_row : Type := {
  base : stock_row;
  Daily_Return : pyfloat;
  MA20 : pyfloat;
  MA50 : pyfloat;
  RSI : pyfloat
}.

Definition Daily_Return_col (p : series) : series :=
  map (fun x => fmul x (Fin 100)) (pct_change p).

Definition MA20_col (p : series) : series := rolling_mean 20 p.
Definition MA50_col (p : series) : series := rolling_mean 50 p.

Definition delta_col (p : series) : series := diff p.

Definition gain_col (p : series) : series :=
  where_ (fun d => fgt d (Fin 0)) (Fin 0) (delta_col p).

Definition loss_col (p : series) : series :=
  map fneg (where_ (fun d => flt d (Fin 0)) (Fin 0) (delta_col p)).

Definition avg_gain_col (p : series) : series := rolling_mean 14 (gain_col p).
Definition avg_loss_col (p : series) : series := rolling_mean 14 (loss_col p).

Definition rs_col (p : series) : series :=
  map2 fdiv (avg_gain_col p) (avg_loss_col p).

Definition RSI_col (p : series) : series :=
  map (fun rs => fsub (Fin 100) (fdiv (Fin 100) (fadd (Fin 1) rs))) (rs_col p).

(** The derived columns laid beside the rows of one group. *)
Fixpoint attach (g : list stock_row) (dr ma20 ma50 rsi : series)
  : list metrics_row :=
  match g, dr, ma20, ma50, rsi with
  | r :: g', a :: dr', b :: ma20', c :: ma50', d :: rsi' =>
      {| base := r; Daily_Return := a; MA20 := b; MA50 := c; RSI := d |}
        :: attach g' dr' ma20' ma50' rsi'
  | _, _, _, _, _ => []
  end.

(** [group.sort_values('Date')]; rows of equal date keep their order. *)
Definition sort_values_Date (g : list stock_row) : list stock_row :=
  sort_by (fun a b => (Date a <=? Date b)%Z) g.

(** The body of the loop of [calculate_metrics] for one group. *)
Definition group_metrics (group : list stock_row) : list metrics_row :=
  let group := sort_values_Date group in
  let p := map price group in
  attach group (Daily_Return_col p) (MA20_col p) (MA50_col p) (RSI_col p).

(** The group keys of [dataframe.groupby('Ticker')]: the distinct tickers in
    increasing order. *)
Definition group_keys (dataframe : list stock_row) : list string :=
  sort_by String.leb (nodup string_dec (map Ticker dataframe)).

Definition has_ticker (k : string) (r : stock_row) : bool :=
  String.eqb (Ticker r) k.

Definition groupby_Ticker (dataframe : list stock_row)
  : list (string * list stock_row) :=
  map (fun k => (k, filter (has_ticker k) dataframe)) (group_keys dataframe).

(** [pd.concat(results)]: the frames one after the other; it raises a
    [ValueError] ([None] here) when there is no frame to concatenate. *)
Definition pd_concat (results : list (list metrics_row))
  : option (list metrics_row) :=
  match results with
  | [] => None
  | _ => Some (List.concat results)
  end.

(** [calculate_metrics]: the groups are processed one by one and their
    results concatenated. *)
Definition calculate_metrics (dataframe : list stock_row)
  : option (list metrics_row) :=
  pd_concat (map (fun kg => group_metrics (snd kg)) (groupby_Ticker dataframe)).

(** The result rows of one ticker. *)
Definition rows_of (k : string) (result : list metrics_row) : list metrics_row :=
  filter (fun m => has_ticker k (base m)) result.

End Stock.

(** ** Facts about the column operations *)

Module SeriesFacts.

Lemma nth_error_map2 {A B C : Type} (f : A -> B -> C) (l1 : list A)
    (l2 : list B) (t : nat) :
  nth_error (map2 f l1 l2) t =
    match nth_error l1 t, nth_error l2 t with
    | Some a, Some b => Some (f a b)
    | _, _ => None
    end.
Proof.
  revert l2 t. induction l1 as [|a l1 IH]; intros [|b l2] [|t]; simpl;
    try reflexivity.
  - destruct (nth_error l1 t); reflexivity.
  - apply IH.
Qed.

Lemma length_map2 {A B C : Type} (f : A -> B -> C) (l1 : list A)
    (l2 : list B) :
  List.length (map2 f l1 l2) = Nat.min (List.length l1) (List.length l2).
Proof.
  revert l2. induction l1 as [|a l1 IH]; intros [|b l2]; simpl; auto.
Qed.

Lemma length_shift1 (s : series) : List.length (shift1 s) = List.length s.
Proof.
  unfold shift1. rewrite length_firstn. simpl. lia.
Qed.

Lemma nth_error_shift1 (s : series) (t : nat) :
  (t < List.length s)%nat ->
  nth_error (shift1 s) t =
    match t with
    | O => Some NaN
    | S p => nth_error s p
    end.
Proof.
  intro Ht. unfold shift1. rewrite nth_error_firstn.
  apply Nat.ltb_lt in Ht. rewrite Ht. destruct t; reflexivity.
Qed.

Lemma ffill_from_fin (last : pyfloat) (vs : list Q) :
  ffill_from last (map Fin vs) = map Fin vs.
Proof.
  revert last. induction vs as [|v vs IH]; intro last; simpl.
  - reflexivity.
  - rewrite IH. reflexivity.
Qed.

Lemma observed_fin (vs : list Q) : observed (map Fin vs) = vs.
Proof.
  unfold observed. induction vs as [|v vs IH]; simpl; [|rewrite IH];
    reflexivity.
Qed.

Lemma window_at_map {A B : Type} (f : A -> B) (N : nat) (s : list A)
    (i : nat) :
  window_at N (map f s) i = map f (window_at N s i).
Proof.
  unfold window_at. rewrite firstn_map, skipn_map. reflexivity.
Qed.

Lemma length_window_at {A : Type} (N : nat) (s : list A) (i : nat) :
  (i < List.length s)%nat ->
  List.length (window_at N s i) = Nat.min N (S i).
Proof.
  intro Hi. unfold window_at. rewrite length_skipn, length_firstn. lia.
Qed.

Lemma nth_error_window_at {A : Type} (N : nat) (s : list A) (i j : nat) :
  (i < List.length s)%nat -> (j < Nat.min N (S i))%nat ->
  nth_error (window_at N s i) j = nth_error s (S i - N + j).
Proof.
  intros Hi Hj. unfold window_at.
  rewrite nth_error_skipn, nth_error_firstn.
  assert ((S i - N + j <? S i)%nat = true) as -> by (apply Nat.ltb_lt; lia).
  reflexivity.
Qed.

Lemma length_rolling_mean (N : nat) (s : series) :
  List.length (rolling_mean N s) = List.length s.
Proof.
  unfold rolling_mean. rewrite length_map, length_seq. reflexivity.
Qed.

Lemma nth_error_rolling_mean (N : nat) (s : series) (t : nat) :
  (t < List.length s)%nat ->
  nth_error (rolling_mean N s) t = Some (window_mean N (window_at N s t)).
Proof.
  intro Ht. unfold rolling_mean.
  rewrite nth_error_map, nth_error_seq.
  apply Nat.ltb_lt in Ht. rewrite Ht. reflexivity.
Qed.

(** On a column without missing values the rolling mean is NaN on the rows
    whose window is not yet full and the mean of the last [N] values
    afterwards. *)
Lemma rolling_mean_fin (N : nat) (vs : list Q) (t : nat) :
  (1 <= N)%nat -> (t < List.length vs)%nat ->
  nth_error (rolling_mean N (map Fin vs)) t =
    Some (if (N <=? S t)%nat then Fin (Qmean (window_at N vs t)) else NaN).
Proof.
  intros HN Ht.
  rewrite nth_error_rolling_mean by (rewrite length_map; exact Ht).
  f_equal. unfold window_mean.
  rewrite window_at_map, observed_fin, length_window_at by exact Ht.
  destruct (N <=? S t)%nat eqn:E.
  - apply Nat.leb_le in E.
    replace (Nat.min N (S t)) with N by lia.
    rewrite Nat.leb_refl.
    assert ((0 <? N)%nat = true) as -> by (apply Nat.ltb_lt; lia).
    reflexivity.
  - apply Nat.leb_gt in E.
    replace (Nat.min N (S t)) with (S t) by lia.
    assert ((N <=? S t)%nat = false) as -> by (apply Nat.leb_gt; lia).
    reflexivity.
Qed.

Lemma Qsum_repeat (c : Q) (k : nat) :
  Qsum (repeat c k) == inject_Z (Z.of_nat k) * c.
Proof.
  induction k as [|k IH].
  - simpl. unfold inject_Z. ring.
  - change (Qsum (repeat c (S k))) with (c + Qsum (repeat c k)).
    rewrite IH, Nat2Z.inj_succ. unfold Z.succ.
    rewrite inject_Z_plus. ring.
Qed.

Lemma Qsum_nonneg (l : list Q) :
  Forall (fun x => 0 <= x) l -> 0 <= Qsum l.
Proof.
  induction 1 as [|x l Hx _ IH]; simpl.
  - apply Qle_refl.
  - lra.
Qed.

(** A sum of non-negative terms is zero only if every term is. *)
Lemma Qsum_zero_all (l : list Q) :
  Forall (fun x => 0 <= x) l -> Qsum l == 0 -> Forall (fun x => x == 0) l.
Proof.
  induction 1 as [|x l Hx Hl IH]; simpl; intro Hs.
  - constructor.
  - pose proof (Qsum_nonneg l Hl) as Hnn.
    constructor; [lra|]. apply IH. lra.
Qed.

Lemma Qsum_all_zero (l : list Q) :
  Forall (fun x => x == 0) l -> Qsum l == 0.
Proof.
  induction 1 as [|x l Hx _ IH]; simpl; [reflexivity|lra].
Qed.

Lemma inject_nat_pos (n : nat) : (1 <= n)%nat -> 0 < inject_Z (Z.of_nat n).
Proof.
  intro Hn. change 0 with (inject_Z 0). rewrite <- Zlt_Qlt. lia.
Qed.

Lemma Qmean_nonneg (l : list Q) :
  (1 <= List.length l)%nat -> Forall (fun x => 0 <= x) l -> 0 <= Qmean l.
Proof.
  intros Hlen Hl. unfold Qmean.
  apply Qle_shift_div_l; [apply inject_nat_pos; exact Hlen|].
  pose proof (Qsum_nonneg l Hl). lra.
Qed.

Lemma Qmean_zero_iff (l : list Q) :
  (1 <= List.length l)%nat -> Forall (fun x => 0 <= x) l ->
  (Qmean l == 0 <-> Forall (fun x => x == 0) l).
Proof.
  intros Hlen Hl. pose proof (inject_nat_pos _ Hlen) as Hpos.
  unfold Qmean. split; intro H.
  - apply Qsum_zero_all; [exact Hl|].
    assert (Qsum l == (Qsum l / inject_Z (Z.of_nat (List.length l)))
                        * inject_Z (Z.of_nat (List.length l))) as E
      by (field; lra).
    rewrite E, H. ring.
  - rewrite (Qsum_all_zero l H). field. lra.
Qed.

Lemma insert_by_perm {A : Type} (leb : A -> A -> bool) (x : A)
    (l : list A) :
  Permutation (insert_by leb x l) (x :: l).
Proof.
  induction l as [|y l IH]; simpl.
  - apply Permutation_refl.
  - destruct (leb x y).
    + apply Permutation_refl.
    + eapply perm_trans; [apply perm_skip, IH|apply perm_swap].
Qed.

Lemma sort_by_perm {A : Type} (leb : A -> A -> bool) (l : list A) :
  Permutation (sort_by leb l) l.
Proof.
  induction l as [|x l IH]; simpl.
  - apply perm_nil.
  - eapply perm_trans; [apply insert_by_perm|apply perm_skip, IH].
Qed.

Lemma length_sort_by {A : Type} (leb : A -> A -> bool) (l : list A) :
  List.length (sort_by leb l) = List.length l.
Proof. apply Permutation_length, sort_by_perm. Qed.

Lemma filter_all {A : Type} (f : A -> bool) (l : list A) :
  Forall (fun x => f x = true) l -> filter f l = l.
Proof.
  induction 1 as [|x l Hx _ IH]; simpl; [reflexivity|].
  rewrite Hx, IH. reflexivity.
Qed.

Lemma filter_none {A : Type} (f : A -> bool) (l : list A) :
  Forall (fun x => f x = false) l -> filter f l = [].
Proof.
  induction 1 as [|x l Hx _ IH]; simpl; [reflexivity|].
  rewrite Hx. exact IH.
Qed.

Lemma dropna_fin (vs : list Q) : dropna (map Fin vs) = map Fin vs.
Proof.
  unfold dropna. apply filter_all, Forall_map, Forall_forall.
  intros v _. reflexivity.
Qed.

Lemma fold_left_Qplus (qs : list Q) (a : Q) :
  fold_left Qplus qs a == a + Qsum qs.
Proof.
  revert a. induction qs as [|q qs IH]; intro a; simpl.
  - ring.
  - rewrite IH. ring.
Qed.

End SeriesFacts.
Import SeriesFacts.

(** ** The stock metrics, row by row *)

Module StockFacts.
Import Stock.

(** What the specification says of one ticker's ordered prices [vs], row by
    row; [t] counts rows from 0. *)

Definition value_at (vs : list Q) (t : nat) : Q := nth t vs 0.

(** Day-over-day delta of row [t >= 1]. *)
Definition delta_at (vs : list Q) (t : nat) : Q :=
  value_at vs t - value_at vs (t - 1).

(** Gain: the positive delta, or 0 (also on the first row, which has no
    delta). *)
Definition gain_at (vs : list Q) (t : nat) : Q :=
  match t with
  | O => 0
  | S _ => if Qltb 0 (delta_at vs t) then delta_at vs t else 0
  end.

(** Loss: the negative delta negated, or 0. *)
Definition loss_at (vs : list Q) (t : nat) : Q :=
  match t with
  | O => 0
  | S _ => if Qltb (delta_at vs t) 0 then - delta_at vs t else 0
  end.

(** The rows of the trailing 14-row window that ends at row [t >= 13]. *)
Definition rsi_window (t : nat) : list nat := seq (t - 13) 14.

Definition avg_gain_at (vs : list Q) (t : nat) : Q :=
  Qmean (map (gain_at vs) (rsi_window t)).

Definition avg_loss_at (vs : list Q) (t : nat) : Q :=
  Qmean (map (loss_at vs) (rsi_window t)).

Definition rsi_formula (avg_gain avg_loss : Q) : Q :=
  100 - 100 / (1 + avg_gain / avg_loss).

Definition pct_formula (prev cur : Q) : Q := (cur - prev) / prev * 100.

(** The RSI of a row from its two averages, as the code computes it. *)
Definition rsi_of (avg_gain avg_loss : pyfloat) : pyfloat :=
  fsub (Fin 100) (fdiv (Fin 100) (fadd (Fin 1) (fdiv avg_gain avg_loss))).

Lemma gain_at_nonneg (vs : list Q) (t : nat) : 0 <= gain_at vs t.
Proof.
  destruct t; simpl; [apply Qle_refl|].
  destruct (Qltb 0 (delta_at vs (S t))) eqn:E; [|apply Qle_refl].
  apply Qltb_lt in E. apply Qlt_le_weak. exact E.
Qed.

Lemma loss_at_nonneg (vs : list Q) (t : nat) : 0 <= loss_at vs t.
Proof.
  destruct t; simpl; [apply Qle_refl|].
  destruct (Qltb (delta_at vs (S t)) 0) eqn:E; [|apply Qle_refl].
  apply Qltb_lt in E. lra.
Qed.

Lemma nth_error_fin (vs : list Q) (t : nat) :
  (t < List.length vs)%nat ->
  nth_error (map Fin vs) t = Some (Fin (value_at vs t)).
Proof.
  intro Ht. rewrite nth_error_map, (nth_error_nth' vs 0 Ht). reflexivity.
Qed.

Lemma nth_error_delta_col (vs : list Q) (t : nat) :
  (t < List.length vs)%nat ->
  nth_error (delta_col (map Fin vs)) t =
    Some (match t with O => NaN | S _ => Fin (delta_at vs t) end).
Proof.
  intro Ht. unfold delta_col, diff.
  rewrite nth_error_map2, nth_error_fin by exact Ht.
  rewrite nth_error_shift1 by (rewrite length_map; exact Ht).
  destruct t as [|p]; [reflexivity|].
  rewrite nth_error_fin by lia.
  unfold delta_at. simpl. rewrite Nat.sub_0_r. reflexivity.
Qed.

Lemma nth_error_none_ge {A : Type} (l : list A) (t : nat) :
  (List.length l <= t)%nat -> nth_error l t = None.
Proof. apply nth_error_None. Qed.

Lemma length_delta_col (p : series) :
  List.length (delta_col p) = List.length p.
Proof.
  unfold delta_col, diff. rewrite length_map2, length_shift1. lia.
Qed.

(** On prices without missing values the gains are all finite. *)
Lemma gain_col_fin (vs : list Q) :
  gain_col (map Fin vs) =
    map Fin (map (gain_at vs) (seq 0 (List.length vs))).
Proof.
  apply nth_error_ext. intro t.
  destruct (Nat.lt_ge_cases t (List.length vs)) as [Ht|Ht].
  - unfold gain_col, where_.
    rewrite nth_error_map, nth_error_delta_col by exact Ht.
    rewrite !nth_error_map, nth_error_seq.
    apply Nat.ltb_lt in Ht. rewrite Ht. simpl.
    destruct t as [|p]; [reflexivity|].
    unfold fgt, flt. simpl gain_at.
    destruct (Qltb 0 (delta_at vs (S p))); reflexivity.
  - rewrite !nth_error_none_ge; [reflexivity| |].
    + rewrite !length_map, length_seq. exact Ht.
    + unfold gain_col, where_.
      rewrite length_map, length_delta_col, length_map. exact Ht.
Qed.

Lemma loss_col_fin (vs : list Q) :
  loss_col (map Fin vs) =
    map Fin (map (loss_at vs) (seq 0 (List.length vs))).
Proof.
  apply nth_error_ext. intro t.
  destruct (Nat.lt_ge_cases t (List.length vs)) as [Ht|Ht].
  - unfold loss_col, where_.
    rewrite !nth_error_map, nth_error_delta_col by exact Ht.
    rewrite nth_error_seq.
    apply Nat.ltb_lt in Ht. rewrite Ht. simpl.
    destruct t as [|p]; [reflexivity|].
    unfold flt. simpl loss_at.
    destruct (Qltb (delta_at vs (S p)) 0); reflexivity.
  - rewrite !nth_error_none_ge; [reflexivity| |].
    + rewrite !length_map, length_seq. exact Ht.
    + unfold loss_col, where_.
      rewrite !length_map, length_delta_col, length_map. exact Ht.
Qed.

(** The trailing window of a column given row by row. *)
Lemma window_at_tabulate {A : Type} (f : nat -> A) (N n t : nat) :
  (t < n)%nat -> (N <= S t)%nat ->
  window_at N (map f (seq 0 n)) t = map f (seq (S t - N) N).
Proof.
  intros Ht HN. apply nth_error_ext. intro j.
  destruct (Nat.lt_ge_cases j N) as [Hj|Hj].
  - rewrite nth_error_window_at
      by (rewrite ?length_map, ?length_seq; lia).
    rewrite !nth_error_map, !nth_error_seq.
    assert ((S t - N + j <? n)%nat = true) as -> by (apply Nat.ltb_lt; lia).
    apply Nat.ltb_lt in Hj. rewrite Hj. reflexivity.
  - rewrite !nth_error_none_ge; [reflexivity| |].
    + rewrite length_map, length_seq. exact Hj.
    + rewrite length_window_at by (rewrite length_map, length_seq; lia).
      lia.
Qed.

Lemma nth_error_avg_gain_col (vs : list Q) (t : nat) :
  (t < List.length vs)%nat ->
  nth_error (avg_gain_col (map Fin vs)) t =
    Some (if (14 <=? S t)%nat then Fin (avg_gain_at vs t) else NaN).
Proof.
  intro Ht. unfold avg_gain_col. rewrite gain_col_fin.
  rewrite rolling_mean_fin by (rewrite ?length_map, ?length_seq; lia).
  destruct (14 <=? S t)%nat eqn:E; [|reflexivity].
  apply Nat.leb_le in E.
  rewrite window_at_tabulate by lia.
  unfold avg_gain_at, rsi_window.
  replace (S t - 14)%nat with (t - 13)%nat by lia. reflexivity.
Qed.

Lemma nth_error_avg_loss_col (vs : list Q) (t : nat) :
  (t < List.length vs)%nat ->
  nth_error (avg_loss_col (map Fin vs)) t =
    Some (if (14 <=? S t)%nat then Fin (avg_loss_at vs t) else NaN).
Proof.
  intro Ht. unfold avg_loss_col. rewrite loss_col_fin.
  rewrite rolling_mean_fin by (rewrite ?length_map, ?length_seq; lia).
  destruct (14 <=? S t)%nat eqn:E; [|reflexivity].
  apply Nat.leb_le in E.
  rewrite window_at_tabulate by lia.
  unfold avg_loss_at, rsi_window.
  replace (S t - 14)%nat with (t - 13)%nat by lia. reflexivity.
Qed.

Lemma length_avg_loss_col (p : series) :
  List.length (avg_loss_col p) = List.length p.
Proof.
  unfold avg_loss_col, loss_col, where_.
  rewrite length_rolling_mean, !length_map. apply length_delta_col.
Qed.

Lemma length_avg_gain_col (p : series) :
  List.length (avg_gain_col p) = List.length p.
Proof.
  unfold avg_gain_col, gain_col, where_.
  rewrite length_rolling_mean, !length_map. apply length_delta_col.
Qed.

Lemma length_RSI_col (p : series) : List.length (RSI_col p) = List.length p.
Proof.
  unfold RSI_col, rs_col.
  rewrite length_map, length_map2, length_avg_gain_col, length_avg_loss_col.
  lia.
Qed.

(** Every RSI cell is computed from the two averages of its own row. *)
Lemma nth_error_RSI_col (p : series) (t : nat) :
  nth_error (RSI_col p) t =
    match nth_error (avg_gain_col p) t, nth_error (avg_loss_col p) t with
    | Some ag, Some al => Some (rsi_of ag al)
    | _, _ => None
    end.
Proof.
  unfold RSI_col, rs_col. rewrite nth_error_map, nth_error_map2.
  destruct (nth_error (avg_gain_col p) t), (nth_error (avg_loss_col p) t);
    reflexivity.
Qed.

Lemma avg_gain_at_nonneg (vs : list Q) (t : nat) : 0 <= avg_gain_at vs t.
Proof.
  unfold avg_gain_at, rsi_window. apply Qmean_nonneg.
  - rewrite length_map, length_seq. lia.
  - apply Forall_map, Forall_forall. intros i _. apply gain_at_nonneg.
Qed.

Lemma avg_loss_at_nonneg (vs : list Q) (t : nat) : 0 <= avg_loss_at vs t.
Proof.
  unfold avg_loss_at, rsi_window. apply Qmean_nonneg.
  - rewrite length_map, length_seq. lia.
  - apply Forall_map, Forall_forall. intros i _. apply loss_at_nonneg.
Qed.

Lemma Qsgn_zero (a : Q) : a == 0 -> Qsgn a = 0%Z.
Proof.
  unfold Qeq, Qsgn. simpl. intro H. rewrite Z.mul_1_r in H.
  rewrite H. reflexivity.
Qed.

Lemma Qsgn_pos (a : Q) : 0 < a -> Qsgn a = 1%Z.
Proof.
  unfold Qlt, Qsgn. simpl. intro H. rewrite Z.mul_1_r in H.
  apply Z.sgn_pos. exact H.
Qed.

(** The three cases of the RSI of a row whose averages are both defined.
    With a zero average loss and some gain the ratio is an infinity and the
    RSI is 100 - 100/inf = 100 (the same under either sign of the infinity,
    so the unmodelled sign of a zero loss does not matter); with no gain
    either, the ratio is 0/0 and the RSI is NaN. *)
Lemma rsi_of_fin (ag al : Q) :
  0 <= ag -> 0 <= al ->
  (~ al == 0 -> feq (rsi_of (Fin ag) (Fin al)) (Fin (rsi_formula ag al))) /\
  (al == 0 -> ~ ag == 0 -> feq (rsi_of (Fin ag) (Fin al)) (Fin 100)) /\
  (al == 0 -> ag == 0 -> rsi_of (Fin ag) (Fin al) = NaN).
Proof.
  intros Hag Hal. unfold rsi_of. repeat split.
  - intro Hnz. simpl. rewrite (Qeq_bool_false _ _ Hnz). simpl.
    assert (0 < al) as Hpos by lra.
    assert (0 <= ag / al) as Hq
      by (apply Qle_shift_div_l; [exact Hpos|lra]).
    rewrite Qeq_bool_false by lra.
    unfold fsub, rsi_formula. simpl. reflexivity.
  - intros Hz Hnz. simpl. rewrite (Qeq_bool_true _ _ Hz).
    rewrite Qsgn_pos by lra. simpl. ring.
  - intros Hz Hgz. simpl. rewrite (Qeq_bool_true _ _ Hz).
    rewrite (Qsgn_zero _ Hgz). reflexivity.
Qed.

Lemma nth_error_lt {A : Type} (l : list A) (t : nat) (x : A) :
  nth_error l t = Some x -> (t < List.length l)%nat.
Proof.
  intro H. apply nth_error_Some. rewrite H. discriminate.
Qed.

(** The RSI cell of row [t] on prices without missing values. *)
Lemma nth_error_RSI_fin (vs : list Q) (t : nat) :
  (t < List.length vs)%nat ->
  nth_error (RSI_col (map Fin vs)) t =
    Some (if (14 <=? S t)%nat
          then rsi_of (Fin (avg_gain_at vs t)) (Fin (avg_loss_at vs t))
          else NaN).
Proof.
  intro Ht.
  rewrite nth_error_RSI_col, nth_error_avg_gain_col, nth_error_avg_loss_col
    by exact Ht.
  destruct (14 <=? S t)%nat; reflexivity.
Qed.

(** C2, as stated, fails on the code: on sixteen equal prices, a valid
    numeric input, the RSI is undefined in every row, also in rows 14 to 16
    where the 14-row window is full. *)
Lemma rsi_undefined_on_flat_prices :
  map isna (RSI_col (map Fin (repeat 5 16))) = repeat true 16.
Proof. vm_compute. reflexivity. Qed.

(** C2, amended: on a ticker's prices without missing values, the 20-row
    and 50-row moving averages are undefined at exactly the first 19 and 49
    rows and defined from rows 20 and 50 onward; the RSI is undefined at
    the first 13 rows, and from row 14 onward it is defined exactly when the
    average gain and the average loss of its window are not both zero. *)
Theorem window_series_defined (vs : list Q) (t : nat) :
  (t < List.length vs)%nat ->
  exists m20 m50 r,
    nth_error (MA20_col (map Fin vs)) t = Some m20 /\
    nth_error (MA50_col (map Fin vs)) t = Some m50 /\
    nth_error (RSI_col (map Fin vs)) t = Some r /\
    (if (t <? 19)%nat then m20 = NaN else isfinite m20 = true) /\
    (if (t <? 49)%nat then m50 = NaN else isfinite m50 = true) /\
    (if (t <? 13)%nat then r = NaN
     else (avg_gain_at vs t == 0 /\ avg_loss_at vs t == 0 -> r = NaN) /\
          (~ (avg_gain_at vs t == 0 /\ avg_loss_at vs t == 0) ->
           isfinite r = true)).
Proof.
  intro Ht. unfold MA20_col, MA50_col.
  rewrite !rolling_mean_fin by (exact Ht || lia).
  rewrite nth_error_RSI_fin by exact Ht.
  do 3 eexists. repeat (split; [reflexivity|]).
  split; [|split].
  - destruct (t <? 19)%nat eqn:E.
    + apply Nat.ltb_lt in E.
      assert ((20 <=? S t)%nat = false) as -> by (apply Nat.leb_gt; lia).
      reflexivity.
    + apply Nat.ltb_ge in E.
      assert ((20 <=? S t)%nat = true) as -> by (apply Nat.leb_le; lia).
      reflexivity.
  - destruct (t <? 49)%nat eqn:E.
    + apply Nat.ltb_lt in E.
      assert ((50 <=? S t)%nat = false) as -> by (apply Nat.leb_gt; lia).
      reflexivity.
    + apply Nat.ltb_ge in E.
      assert ((50 <=? S t)%nat = true) as -> by (apply Nat.leb_le; lia).
      reflexivity.
  - destruct (t <? 13)%nat eqn:E.
    + apply Nat.ltb_lt in E.
      assert ((14 <=? S t)%nat = false) as -> by (apply Nat.leb_gt; lia).
      reflexivity.
    + apply Nat.ltb_ge in E.
      assert ((14 <=? S t)%nat = true) as -> by (apply Nat.leb_le; lia).
      pose proof (avg_gain_at_nonneg vs t) as Hg.
      pose proof (avg_loss_at_nonneg vs t) as Hl.
      destruct (rsi_of_fin _ _ Hg Hl) as (Hnz & Hinf & Hnan).
      split.
      * intros [Hg0 Hl0]. apply Hnan; assumption.
      * intro Hnot.
        destruct (Qeq_dec (avg_loss_at vs t) 0) as [Hl0|Hl0].
        -- assert (~ avg_gain_at vs t == 0) as Hg0 by tauto.
           specialize (Hinf Hl0 Hg0).
           destruct (rsi_of _ _); simpl in Hinf; tauto.
        -- specialize (Hnz Hl0).
           destruct (rsi_of _ _); simpl in Hnz; tauto.
Qed.

Lemma window_series_defined_witness :
  exists m20 m50 r,
    nth_error (MA20_col (map Fin (repeat 5 13 ++ [6; 4]))) 13 = Some m20 /\
    nth_error (MA50_col (map Fin (repeat 5 13 ++ [6; 4]))) 13 = Some m50 /\
    nth_error (RSI_col (map Fin (repeat 5 13 ++ [6; 4]))) 13 = Some r /\
    m20 = NaN /\ m50 = NaN /\
    (avg_gain_at (repeat 5 13 ++ [6; 4]) 13 == 0 /\
     avg_loss_at (repeat 5 13 ++ [6; 4]) 13 == 0 -> r = NaN) /\
    (~ (avg_gain_at (repeat 5 13 ++ [6; 4]) 13 == 0 /\
        avg_loss_at (repeat 5 13 ++ [6; 4]) 13 == 0) -> isfinite r = true).
Proof.
  apply (window_series_defined (repeat 5 13 ++ [6; 4]) 13). simpl. lia.
Defined.

(** C3: on a ticker's prices without missing values, the cells of the
    code's average-gain and average-loss columns at a row from the 14th on
    are the means, over the trailing 14 rows, of the gains (positive
    day-over-day deltas, else 0) and of the losses (negative deltas negated,
    else 0).  In a row where that average loss is zero and the RSI is
    defined, the RSI is 100 (it is defined exactly when the average gain is
    not zero too); in a row where the average loss is not zero, the RSI is
    100 - 100/(1 + avg_gain/avg_loss).  Before the 14th row the three cells
    are undefined. *)
Theorem rsi_spec (vs : list Q) (t : nat) :
  (t < List.length vs)%nat ->
  exists ag al r,
    nth_error (avg_gain_col (map Fin vs)) t = Some ag /\
    nth_error (avg_loss_col (map Fin vs)) t = Some al /\
    nth_error (RSI_col (map Fin vs)) t = Some r /\
    if (t <? 13)%nat then ag = NaN /\ al = NaN /\ r = NaN
    else
      ag = Fin (avg_gain_at vs t) /\
      al = Fin (avg_loss_at vs t) /\
      (avg_loss_at vs t == 0 -> isna r = false -> feq r (Fin 100)) /\
      (avg_loss_at vs t == 0 ->
         (isna r = false <-> ~ avg_gain_at vs t == 0)) /\
      (~ avg_loss_at vs t == 0 ->
         feq r (Fin (rsi_formula (avg_gain_at vs t) (avg_loss_at vs t)))).
Proof.
  intro Ht.
  rewrite nth_error_avg_gain_col, nth_error_avg_loss_col, nth_error_RSI_fin
    by exact Ht.
  do 3 eexists. repeat (split; [reflexivity|]).
  destruct (t <? 13)%nat eqn:E.
  - apply Nat.ltb_lt in E.
    assert ((14 <=? S t)%nat = false) as -> by (apply Nat.leb_gt; lia).
    repeat split.
  - apply Nat.ltb_ge in E.
    assert ((14 <=? S t)%nat = true) as -> by (apply Nat.leb_le; lia).
    pose proof (avg_gain_at_nonneg vs t) as Hg.
    pose proof (avg_loss_at_nonneg vs t) as Hl.
    destruct (rsi_of_fin _ _ Hg Hl) as (Hnz & Hinf & Hnan).
    split; [reflexivity|]. split; [reflexivity|].
    assert (avg_loss_at vs t == 0 ->
            (isna (rsi_of (Fin (avg_gain_at vs t)) (Fin (avg_loss_at vs t)))
               = false <-> ~ avg_gain_at vs t == 0)) as Hdef.
    { intro Hz. split.
      - intros Hr Hg0. rewrite (Hnan Hz Hg0) in Hr. discriminate Hr.
      - intro Hg0. specialize (Hinf Hz Hg0).
        destruct (rsi_of _ _); simpl in Hinf; try contradiction.
        reflexivity. }
    split; [|split].
    + intros Hz Hr. apply Hinf; [exact Hz|]. apply (Hdef Hz). exact Hr.
    + exact Hdef.
    + exact Hnz.
Qed.

(** Fourteen prices that rise by three and fall by two in turn: the window
    of the 14th row holds gains and losses. *)
Definition zigzag_prices : list Q :=
  map inject_Z [44; 47; 45; 48; 46; 49; 47; 50; 48; 51; 49; 52; 50; 53]%Z.

Lemma rsi_spec_witness :
  exists ag al r,
    nth_error (avg_gain_col (map Fin zigzag_prices)) 13 = Some ag /\
    nth_error (avg_loss_col (map Fin zigzag_prices)) 13 = Some al /\
    nth_error (RSI_col (map Fin zigzag_prices)) 13 = Some r /\
    ag = Fin (avg_gain_at zigzag_prices 13) /\
    al = Fin (avg_loss_at zigzag_prices 13) /\
    (avg_loss_at zigzag_prices 13 == 0 -> isna r = false ->
       feq r (Fin 100)) /\
    (avg_loss_at zigzag_prices 13 == 0 ->
       (isna r = false <-> ~ avg_gain_at zigzag_prices 13 == 0)) /\
    (~ avg_loss_at zigzag_prices 13 == 0 ->
       feq r (Fin (rsi_formula (avg_gain_at zigzag_prices 13)
                               (avg_loss_at zigzag_prices 13)))).
Proof.
  apply (rsi_spec zigzag_prices 13). simpl. lia.
Defined.

(** The two cases on concrete prices: gains of 3 and losses of 2 in turn
    give an average gain of 21/14, an average loss of 12/14 and an RSI of
    700/11; prices that only rise give an average loss of 0 and an RSI of
    100. *)
Definition rising_prices : list Q :=
  map inject_Z [1; 2; 3; 4; 5; 6; 7; 8; 9; 10; 11; 12; 13; 14]%Z.

Example rsi_zigzag_example :
  avg_gain_at zigzag_prices 13 == 21 # 14 /\
  avg_loss_at zigzag_prices 13 == 12 # 14 /\
  Forall2 feq (skipn 13 (RSI_col (map Fin zigzag_prices))) [Fin (700 # 11)] /\
  Forall2 feq (skipn 13 (RSI_col (map Fin rising_prices))) [Fin 100].
Proof.
  repeat split; try (vm_compute; reflexivity).
  - vm_compute. repeat constructor.
  - vm_compute. repeat constructor.
Qed.

Lemma nth_error_Daily_Return_fin (vs : list Q) (t : nat) :
  (t < List.length vs)%nat ->
  nth_error (Daily_Return_col (map Fin vs)) t =
    Some (match t with
          | O => NaN
          | S p =>
              fmul (fsub (fdiv (Fin (value_at vs t)) (Fin (value_at vs p)))
                         (Fin 1))
                   (Fin 100)
          end).
Proof.
  intro Ht. unfold Daily_Return_col, pct_change, ffill.
  rewrite ffill_from_fin, nth_error_map, nth_error_map2.
  rewrite nth_error_fin by exact Ht.
  rewrite nth_error_shift1 by (rewrite length_map; exact Ht).
  destruct t as [|p]; [reflexivity|].
  rewrite nth_error_fin by lia. reflexivity.
Qed.

(** C4, as stated, fails on the code: after a price of exactly zero the
    daily return of a non-zero price is not a missing value but +infinity (a
    float that [isna] does not report and [dropna] keeps). *)
Lemma daily_return_after_zero_is_infinite :
  nth_error (Daily_Return_col (map Fin [10; 0; 12])) 2 = Some PInf /\
  map isna (Daily_Return_col (map Fin [10; 0; 12])) = [true; false; false] /\
  nth_error (dropna (Daily_Return_col (map Fin [10; 0; 12]))) 1 = Some PInf.
Proof. vm_compute. repeat split. Qed.

Lemma Qsgn_neg (a : Q) : a < 0 -> Qsgn a = (-1)%Z.
Proof.
  unfold Qlt, Qsgn. simpl. intro H. rewrite Z.mul_1_r in H.
  apply Z.sgn_neg. exact H.
Qed.

(** C4, amended: the daily return of a row is undefined (NaN, no error) on
    the first row; on a later row it is (cur - prev) / prev * 100 when the
    previous value is not zero, hence exactly 0 when the two values are
    equal; when the previous value is exactly zero no error is raised, and
    the cell is undefined (NaN) only when the current value is zero too:
    otherwise it is +infinity or -infinity, by the sign of the current
    value, which is a present value and not a missing one. *)
Theorem daily_return_spec (vs : list Q) (t : nat) (cur : Q) :
  nth_error vs t = Some cur ->
  exists x,
    nth_error (Daily_Return_col (map Fin vs)) t = Some x /\
    match t with
    | O => x = NaN
    | S p =>
        forall prev, nth_error vs p = Some prev ->
          (~ prev == 0 -> feq x (Fin (pct_formula prev cur))) /\
          (~ prev == 0 -> cur == prev -> feq x (Fin 0)) /\
          (prev == 0 -> cur == 0 -> x = NaN) /\
          (prev == 0 -> 0 < cur -> x = PInf /\ isna x = false) /\
          (prev == 0 -> cur < 0 -> x = NInf /\ isna x = false)
    end.
Proof.
  intro Hcur. pose proof (nth_error_lt _ _ _ Hcur) as Ht.
  rewrite nth_error_Daily_Return_fin by exact Ht.
  eexists. split; [reflexivity|].
  destruct t as [|p]; [reflexivity|].
  intros prev Hprev.
  unfold value_at.
  rewrite (nth_error_nth vs (S p) 0 Hcur), (nth_error_nth vs p 0 Hprev).
  assert (~ prev == 0 ->
          feq (fmul (fsub (fdiv (Fin cur) (Fin prev)) (Fin 1)) (Fin 100))
              (Fin (pct_formula prev cur))) as Hform.
  { intro Hnz. simpl. rewrite (Qeq_bool_false _ _ Hnz). simpl.
    unfold pct_formula. field. exact Hnz. }
  split; [exact Hform|]. split; [|split; [|split]].
  - intros Hnz Heq. eapply feq_trans; [apply Hform; exact Hnz|].
    simpl. unfold pct_formula. rewrite Heq. field. exact Hnz.
  - intros Hz Hc. simpl. rewrite (Qeq_bool_true _ _ Hz), (Qsgn_zero _ Hc).
    reflexivity.
  - intros Hz Hc. simpl. rewrite (Qeq_bool_true _ _ Hz), (Qsgn_pos _ Hc).
    split; reflexivity.
  - intros Hz Hc. simpl. rewrite (Qeq_bool_true _ _ Hz), (Qsgn_neg _ Hc).
    split; reflexivity.
Qed.

Lemma daily_return_spec_witness :
  exists x,
    nth_error (Daily_Return_col (map Fin [10; 11; 0; 12])) 1 = Some x /\
    forall prev, nth_error [10; 11; 0; 12] 0%nat = Some prev ->
      (~ prev == 0 -> feq x (Fin (pct_formula prev 11))) /\
      (~ prev == 0 -> 11 == prev -> feq x (Fin 0)) /\
      (prev == 0 -> 11 == 0 -> x = NaN) /\
      (prev == 0 -> 0 < 11 -> x = PInf /\ isna x = false) /\
      (prev == 0 -> 11 < 0 -> x = NInf /\ isna x = false).
Proof.
  apply (daily_return_spec [10; 11; 0; 12] 1 11). reflexivity.
Defined.

(** The examples of the specification: the 3-row moving average of
    [10, 11, 9, 12], and daily returns around a zero price. *)
Example moving_average_example :
  Forall2 feq (rolling_mean 3 (map Fin [10; 11; 9; 12]))
              [NaN; NaN; Fin 10; Fin (32 # 3)].
Proof. vm_compute. repeat constructor. Qed.

Example daily_return_example :
  Forall2 feq (Daily_Return_col (map Fin [10; 11; 11; 0; 0; 5]))
              [NaN; Fin 10; Fin 0; Fin (-100); NaN; PInf].
Proof. vm_compute. repeat constructor. Qed.

Lemma repeat_tabulate {A : Type} (c : A) (a n : nat) :
  map (fun _ => c) (seq a n) = repeat c n.
Proof.
  revert a. induction n as [|n IH]; intro a; simpl; [|rewrite IH];
    reflexivity.
Qed.

Lemma Qmean_repeat (c : Q) (N : nat) :
  (1 <= N)%nat -> Qmean (repeat c N) == c.
Proof.
  intro HN. unfold Qmean. rewrite Qsum_repeat, repeat_length.
  pose proof (inject_nat_pos N HN). field. lra.
Qed.

(** C8: on a constant series the [N]-row moving average is defined from
    row [N] onward, and wherever it is defined it equals the constant. *)
Theorem moving_average_constant (c : Q) (N n t : nat) (x : pyfloat) :
  (1 <= N)%nat ->
  nth_error (rolling_mean N (map Fin (repeat c n))) t = Some x ->
  (isna x = false -> feq x (Fin c)) /\
  ((N <= S t)%nat -> isna x = false).
Proof.
  intros HN Hx.
  assert (t < n)%nat as Ht.
  { apply nth_error_lt in Hx.
    rewrite length_rolling_mean, length_map, repeat_length in Hx. exact Hx. }
  rewrite rolling_mean_fin in Hx by (rewrite ?repeat_length; lia).
  injection Hx as <-.
  destruct (N <=? S t)%nat eqn:E.
  - apply Nat.leb_le in E. split; [|reflexivity].
    intros _. simpl.
    rewrite <- (repeat_tabulate c 0 n), window_at_tabulate by lia.
    rewrite repeat_tabulate. apply Qmean_repeat. exact HN.
  - apply Nat.leb_gt in E. split; [discriminate|lia].
Qed.

Lemma moving_average_constant_witness :
  (isna (Fin (21 # 3)) = false -> feq (Fin (21 # 3)) (Fin 7)) /\
  ((3 <= 4)%nat -> isna (Fin (21 # 3)) = false).
Proof.
  apply (moving_average_constant 7 3 5 3 (Fin (21 # 3))).
  - lia.
  - vm_compute. reflexivity.
Defined.

(** *** The groups of [calculate_metrics] *)

Lemma length_ffill_from (last : pyfloat) (s : series) :
  List.length (ffill_from last s) = List.length s.
Proof.
  revert last. induction s as [|x s IH]; intro last; simpl; [reflexivity|].
  destruct (isna x); simpl; rewrite IH; reflexivity.
Qed.

Lemma length_Daily_Return_col (p : series) :
  List.length (Daily_Return_col p) = List.length p.
Proof.
  unfold Daily_Return_col, pct_change, ffill.
  rewrite length_map, length_map2, length_shift1, length_ffill_from. lia.
Qed.

Lemma attach_columns (g : list stock_row) (dr ma20 ma50 rsi : series) :
  List.length dr = List.length g -> List.length ma20 = List.length g ->
  List.length ma50 = List.length g -> List.length rsi = List.length g ->
  map base (attach g dr ma20 ma50 rsi) = g /\
  map Daily_Return (attach g dr ma20 ma50 rsi) = dr /\
  map MA20 (attach g dr ma20 ma50 rsi) = ma20 /\
  map MA50 (attach g dr ma20 ma50 rsi) = ma50 /\
  map RSI (attach g dr ma20 ma50 rsi) = rsi.
Proof.
  revert dr ma20 ma50 rsi.
  induction g as [|r g IH]; intros [|a dr] [|b ma20] [|c ma50] [|d rsi];
    simpl; try discriminate; intros H1 H2 H3 H4.
  - repeat split.
  - destruct (IH dr ma20 ma50 rsi) as (E0 & E1 & E2 & E3 & E4);
      try congruence.
    rewrite E0, E1, E2, E3, E4. repeat split.
Qed.

(** The result of a group: its rows in date order, each column computed
    from the prices of the group alone. *)
Lemma group_metrics_columns (g : list stock_row) :
  let p := map price (sort_values_Date g) in
  map base (group_metrics g) = sort_values_Date g /\
  map Daily_Return (group_metrics g) = Daily_Return_col p /\
  map MA20 (group_metrics g) = MA20_col p /\
  map MA50 (group_metrics g) = MA50_col p /\
  map RSI (group_metrics g) = RSI_col p.
Proof.
  intro p. unfold group_metrics. fold p.
  apply attach_columns.
  - rewrite length_Daily_Return_col. apply length_map.
  - unfold MA20_col. rewrite length_rolling_mean. apply length_map.
  - unfold MA50_col. rewrite length_rolling_mean. apply length_map.
  - rewrite length_RSI_col. apply length_map.
Qed.

Lemma group_metrics_ticker (k : string) (g : list stock_row) :
  Forall (fun r => Ticker r = k) g ->
  Forall (fun m => Ticker (base m) = k) (group_metrics g).
Proof.
  intro Hg.
  apply (proj1 (Forall_map base (fun r => Ticker r = k) (group_metrics g))).
  destruct (group_metrics_columns g) as [-> _].
  unfold sort_values_Date.
  eapply Permutation_Forall; [|exact Hg].
  apply Permutation_sym, sort_by_perm.
Qed.

Lemma filter_has_ticker (k : string) (df : list stock_row) :
  Forall (fun r => Ticker r = k) (filter (has_ticker k) df).
Proof.
  apply Forall_forall. intros r Hr. apply filter_In in Hr.
  destruct Hr as [_ Hr]. apply String.eqb_eq. exact Hr.
Qed.

Lemma rows_of_app (k : string) (l1 l2 : list metrics_row) :
  rows_of k (l1 ++ l2) = rows_of k l1 ++ rows_of k l2.
Proof. apply filter_app. Qed.

Lemma rows_of_same (k : string) (df : list stock_row) :
  rows_of k (group_metrics (filter (has_ticker k) df)) =
    group_metrics (filter (has_ticker k) df).
Proof.
  apply filter_all.
  eapply Forall_impl; [|apply group_metrics_ticker, filter_has_ticker].
  intros m Hm. apply String.eqb_eq. exact Hm.
Qed.

Lemma rows_of_other (k k' : string) (df : list stock_row) :
  k' <> k -> rows_of k (group_metrics (filter (has_ticker k') df)) = [].
Proof.
  intro Hne. apply filter_none.
  eapply Forall_impl; [|apply group_metrics_ticker, filter_has_ticker].
  intros m Hm. apply String.eqb_neq. simpl in Hm. congruence.
Qed.

Lemma group_keys_In (k : string) (df : list stock_row) :
  In k (group_keys df) <-> In k (map Ticker df).
Proof.
  unfold group_keys. split; intro H.
  - apply (nodup_In string_dec).
    eapply Permutation_in; [apply sort_by_perm|exact H].
  - eapply Permutation_in; [apply Permutation_sym, sort_by_perm|].
    apply nodup_In. exact H.
Qed.

Lemma group_keys_NoDup (df : list stock_row) : NoDup (group_keys df).
Proof.
  unfold group_keys.
  eapply Permutation_NoDup; [apply Permutation_sym, sort_by_perm|].
  apply NoDup_nodup.
Qed.

(** A table with at least one row has at least one group, so the
    concatenation succeeds. *)
Lemma calculate_metrics_flat (df : list stock_row) :
  df <> [] ->
  calculate_metrics df =
    Some (flat_map (fun k => group_metrics (filter (has_ticker k) df))
                   (group_keys df)).
Proof.
  intro Hne. unfold calculate_metrics, groupby_Ticker.
  rewrite map_map. cbn [snd].
  destruct (group_keys df) as [|k ks] eqn:E.
  - exfalso. destruct df as [|r df]; [contradiction|].
    assert (In (Ticker r) (group_keys (r :: df))) as Hin
      by (apply group_keys_In; left; reflexivity).
    rewrite E in Hin. exact Hin.
  - unfold pd_concat. cbn [map]. rewrite (flat_map_concat_map _ (k :: ks)).
    reflexivity.
Qed.

Lemma calculate_metrics_empty : calculate_metrics [] = None.
Proof. reflexivity. Qed.

Lemma rows_of_groups (k : string) (df : list stock_row) (keys : list string) :
  NoDup keys ->
  rows_of k (flat_map (fun k' => group_metrics (filter (has_ticker k') df))
                      keys) =
    if in_dec string_dec k keys
    then group_metrics (filter (has_ticker k) df) else [].
Proof.
  induction 1 as [|k' keys Hnin Hnd IH]; [reflexivity|].
  cbn [flat_map]. rewrite rows_of_app, IH.
  destruct (string_dec k' k) as [->|Hne].
  - rewrite rows_of_same.
    destruct (in_dec string_dec k keys) as [Hin|_]; [contradiction|].
    destruct (in_dec string_dec k (k :: keys)) as [_|Hn];
      [apply app_nil_r|].
    exfalso. apply Hn. left. reflexivity.
  - rewrite (rows_of_other k k' df Hne). cbn [app].
    destruct (in_dec string_dec k keys) as [Hin|Hnin'];
      destruct (in_dec string_dec k (k' :: keys)) as [Hin'|Hn'];
      try reflexivity.
    + exfalso. apply Hn'. right. exact Hin.
    + destruct Hin' as [E|Hin']; [congruence|contradiction].
Qed.

(** The result rows of a ticker are the result of its own group. *)
Lemma rows_of_calculate_metrics (k : string) (df : list stock_row) :
  df <> [] ->
  exists result,
    calculate_metrics df = Some result /\
    rows_of k result = group_metrics (filter (has_ticker k) df).
Proof.
  intro Hne. rewrite (calculate_metrics_flat df Hne).
  eexists. split; [reflexivity|].
  rewrite rows_of_groups by apply group_keys_NoDup.
  destruct (in_dec string_dec k (group_keys df)) as [_|Hn]; [reflexivity|].
  rewrite filter_none; [reflexivity|].
  apply Forall_forall. intros r Hr. apply String.eqb_neq.
  intro E. apply Hn, group_keys_In. rewrite <- E. apply in_map. exact Hr.
Qed.

(** C9: on two tables (each with at least one row, so that the computation
    returns) that agree on the rows of a ticker, the result rows of that
    ticker (input columns, daily return, both moving averages and RSI) are
    the same, whatever the other rows are. *)
Theorem subject_isolation (k : string) (df1 df2 : list stock_row) :
  filter (has_ticker k) df1 = filter (has_ticker k) df2 ->
  df1 <> [] -> df2 <> [] ->
  exists result1 result2,
    calculate_metrics df1 = Some result1 /\
    calculate_metrics df2 = Some result2 /\
    rows_of k result1 = rows_of k result2.
Proof.
  intros H Hne1 Hne2.
  destruct (rows_of_calculate_metrics k df1 Hne1) as (r1 & E1 & R1).
  destruct (rows_of_calculate_metrics k df2 Hne2) as (r2 & E2 & R2).
  exists r1, r2. split; [exact E1|]. split; [exact E2|].
  rewrite R1, R2, H. reflexivity.
Qed.

Lemma subject_isolation_witness :
  exists result1 result2,
    calculate_metrics
      [ {| Ticker := "MSFT"; Date := 1; price := Fin 20 |};
        {| Ticker := "AAPL"; Date := 2; price := Fin 11 |};
        {| Ticker := "AAPL"; Date := 1; price := Fin 10 |} ] = Some result1 /\
    calculate_metrics
      [ {| Ticker := "AAPL"; Date := 2; price := Fin 11 |};
        {| Ticker := "GOOG"; Date := 2; price := NaN |};
        {| Ticker := "AAPL"; Date := 1; price := Fin 10 |};
        {| Ticker := "GOOG"; Date := 1; price := Fin 0 |} ] = Some result2 /\
    rows_of "AAPL" result1 = rows_of "AAPL" result2.
Proof.
  apply (subject_isolation "AAPL"); [reflexivity|discriminate|discriminate].
Defined.

End StockFacts.

(** ** Campaign lift: [SalesPerformanceAnalysis.marketing_campaign_impact] *)

Module Campaign.

Local Open Scope string_scope.

(** The two columns of the sales table the analysis reads; a missing
    campaign is [None], a missing amount is NaN. *)
Record sale : Type := {
  campaign_id : option string;
  sales_amount : pyfloat
}.

(** [self.data] once loaded, with its [sales_amount] column: whether it has
    a [campaign_id] column, and its rows.  (A table that may lack
    [sales_amount] is [SalesPrep.raw_frame].) *)
Record DataFrame : Type := {
  has_campaign_id : bool;
  records : list sale
}.

(** A row of the aggregate table: the group key (the index) and the three
    renamed columns. *)
Record campaign_row : Type := {
  campaign : string;
  total_sales : pyfloat;
  avg_sale : pyfloat;
  num_transactions : nat
}.

(** The returned table: the aggregate rows and, when it was computed, the
    column [sales_lift_pct] beside them. *)
Record campaign_table : Type := {
  table : list campaign_row;
  sales_lift_pct : option (list pyfloat)
}.

Inductive result (A : Type) : Type :=
| Ok (a : A)
| ValueError (msg : string)
| KeyError (label : string).
Arguments Ok {A} a.
Arguments ValueError {A} msg.
Arguments KeyError {A} label.

Definition fsum (l : list pyfloat) : pyfloat := fold_left fadd l (Fin 0).

Definition in_campaign (c : string) (r : sale) : bool :=
  match campaign_id r with
  | Some c' => String.eqb c' c
  | None => false
  end.

(** The amounts of the group of key [c]. *)
Definition group_amounts (c : string) (rows : list sale) : list pyfloat :=
  map sales_amount (filter (in_campaign c) rows).

(** The aggregations skip missing amounts; the mean of a group without any
    amount is NaN (0/0). *)
Definition group_sum (c : string) (rows : list sale) : pyfloat :=
  fsum (dropna (group_amounts c rows)).

Definition group_count (c : string) (rows : list sale) : nat :=
  List.length (dropna (group_amounts c rows)).

Definition group_mean (c : string) (rows : list sale) : pyfloat :=
  fdiv (group_sum c rows) (of_Z (Z.of_nat (group_count c rows))).

Definition agg_row (rows : list sale) (c : string) : campaign_row :=
  {| campaign := c;
     total_sales := group_sum c rows;
     avg_sale := group_mean c rows;
     num_transactions := group_count c rows |}.

(** The group keys: rows without a campaign are dropped, the distinct keys
    come in increasing order. *)
Definition campaign_keys (rows : list sale) : list string :=
  sort_by String.leb
    (nodup string_dec
       (flat_map (fun r => match campaign_id r with
                           | Some c => [c]
                           | None => []
                           end) rows)).

(** [sort_values('sum', ascending=False)]: larger totals first, NaN last;
    rows of equal total keep their order. *)
Definition sum_desc (a b : campaign_row) : bool :=
  if isna (total_sales b) then true
  else if isna (total_sales a) then false
  else negb (flt (total_sales a) (total_sales b)).

(** [groupby('campaign_id')['sales_amount'].agg(['sum', 'mean', 'count'])],
    sorted by the sum and renamed. *)
Definition campaign_aggregates (rows : list sale) : list campaign_row :=
  sort_by sum_desc (map (agg_row rows) (campaign_keys rows)).

(** [table.loc[label]]. *)
Definition loc (label : string) (t : list campaign_row) : option campaign_row :=
  find (fun r => String.eqb (campaign r) label) t.

Definition in_index (label : string) (t : list campaign_row) : bool :=
  existsb (fun r => String.eqb (campaign r) label) t.

(** [(avg_sale - baseline) / baseline * 100]. *)
Definition lift (avg baseline : pyfloat) : pyfloat :=
  fmul (fdiv (fsub avg baseline) baseline) (Fin 100).

(** The analysis, its plots left out: the aggregate table, with the lift
    column when "No Campaign" is one of the groups. *)
Definition marketing_campaign_impact (data : option DataFrame)
  : result campaign_table :=
  match data with
  | None => ValueError "Data not loaded or missing campaign information"
  | Some df =>
      if negb (has_campaign_id df)
      then ValueError "Data not loaded or missing campaign information"
      else
        let campaign_sales := campaign_aggregates (records df) in
        if in_index "No Campaign" campaign_sales then
          match loc "No Campaign" campaign_sales with
          | None => KeyError "No Campaign"
          | Some no_campaign_data =>
              let baseline := avg_sale no_campaign_data in
              Ok {| table := campaign_sales;
                    sales_lift_pct :=
                      Some (map (fun r => fround2 (lift (avg_sale r) baseline))
                                campaign_sales) |}
          end
        else Ok {| table := campaign_sales; sales_lift_pct := None |}
  end.

(** The lift the returned table shows for category [c], if any. *)
Definition lift_of (t : campaign_table) (c : string) : option pyfloat :=
  match sales_lift_pct t with
  | None => None
  | Some lifts =>
      option_map snd
        (find (fun rl => String.eqb (campaign (fst rl)) c)
              (combine (table t) lifts))
  end.

(** The lift as the specification words it, on two finite means. *)
Definition lift_formula (group_mean baseline_mean : Q) : Q :=
  (group_mean - baseline_mean) / baseline_mean * 100.

(** *** Facts *)

Lemma campaign_keys_In (c : string) (rows : list sale) :
  In c (campaign_keys rows) <-> In (Some c) (map campaign_id rows).
Proof.
  unfold campaign_keys.
  set (keys := flat_map _ rows).
  assert (In c keys <-> In (Some c) (map campaign_id rows)) as Hk.
  { unfold keys. rewrite in_flat_map, in_map_iff. split.
    - intros (r & Hr & Hc). exists r. split; [|exact Hr].
      destruct (campaign_id r) as [c'|]; simpl in Hc; [|contradiction].
      destruct Hc as [->|[]]. reflexivity.
    - intros (r & Hc & Hr). exists r. split; [exact Hr|].
      rewrite Hc. left. reflexivity. }
  rewrite <- Hk. split; intro H.
  - apply (nodup_In string_dec).
    eapply Permutation_in; [apply sort_by_perm|exact H].
  - eapply Permutation_in; [apply Permutation_sym, sort_by_perm|].
    apply nodup_In. exact H.
Qed.

(** The aggregate table has one row per campaign of the data, and the row
    of a campaign holds the sum, mean and count of its amounts. *)
Lemma campaign_aggregates_In (r : campaign_row) (rows : list sale) :
  In r (campaign_aggregates rows) <->
  In (Some (campaign r)) (map campaign_id rows) /\
  r = agg_row rows (campaign r).
Proof.
  unfold campaign_aggregates. split.
  - intro H.
    apply (Permutation_in _ (sort_by_perm sum_desc _)) in H.
    apply in_map_iff in H. destruct H as (c & <- & Hc).
    split; [|reflexivity]. apply campaign_keys_In. exact Hc.
  - intros [Hc Hr].
    apply (Permutation_in _ (Permutation_sym (sort_by_perm sum_desc _))).
    rewrite Hr. apply in_map. apply campaign_keys_In. exact Hc.
Qed.

Lemma in_index_iff (c : string) (rows : list sale) :
  in_index c (campaign_aggregates rows) = true <->
  In (Some c) (map campaign_id rows).
Proof.
  unfold in_index. rewrite existsb_exists. split.
  - intros (r & Hr & Hc). apply String.eqb_eq in Hc. subst c.
    apply campaign_aggregates_In in Hr. apply Hr.
  - intro Hc. exists (agg_row rows c). split.
    + apply campaign_aggregates_In. simpl. auto.
    + apply String.eqb_refl.
Qed.

Lemma loc_aggregates (c : string) (rows : list sale) :
  In (Some c) (map campaign_id rows) ->
  loc c (campaign_aggregates rows) = Some (agg_row rows c).
Proof.
  intro Hc. unfold loc.
  destruct (find _ (campaign_aggregates rows)) as [r|] eqn:E.
  - apply find_some in E. destruct E as [Hr Hk].
    apply String.eqb_eq in Hk. apply campaign_aggregates_In in Hr.
    destruct Hr as [_ Hr]. rewrite Hr, Hk. reflexivity.
  - exfalso.
    pose proof (find_none _ _ E (agg_row rows c)) as Hn.
    simpl in Hn. rewrite String.eqb_refl in Hn.
    assert (true = false) by
      (apply Hn, campaign_aggregates_In; simpl; auto).
    discriminate.
Qed.

Lemma find_combine_map {A B : Type} (p : A -> bool) (f : A -> B)
    (l : list A) :
  find (fun rl => p (fst rl)) (combine l (map f l)) =
    option_map (fun r => (r, f r)) (find p l).
Proof.
  induction l as [|a l IH]; simpl; [reflexivity|].
  destruct (p a); [reflexivity|exact IH].
Qed.

Lemma Qround2_zero (q : Q) : q == 0 -> Qround2 q == 0.
Proof.
  intro Hq. unfold Qround2, Qround_half_even.
  assert (q * 100 == 0) as H0 by (rewrite Hq; ring).
  assert (Qfloor (q * 100) = 0%Z) as ->
    by (rewrite (Qfloor_comp _ _ H0); reflexivity).
  assert (Qltb (q * 100 - inject_Z 0) (1 # 2) = true) as ->.
  { apply Qltb_lt. unfold inject_Z. lra. }
  reflexivity.
Qed.

Lemma fsum_from_fin (qs : list Q) (a : Q) :
  fold_left fadd (map Fin qs) (Fin a) = Fin (fold_left Qplus qs a).
Proof.
  revert a. induction qs as [|q qs IH]; intro a; simpl; [reflexivity|].
  apply IH.
Qed.

(** The mean of a group whose amounts are all numbers is their arithmetic
    mean. *)
Lemma group_mean_fin (c : string) (rows : list sale) (qs : list Q) :
  group_amounts c rows = map Fin qs -> qs <> [] ->
  exists g, group_mean c rows = Fin g /\ g == Qmean qs.
Proof.
  intros Hq Hne. unfold group_mean, group_sum, group_count, fsum.
  rewrite Hq, dropna_fin, fsum_from_fin, length_map.
  assert (1 <= List.length qs)%nat as Hn
    by (destruct qs; [contradiction|simpl; lia]).
  pose proof (inject_nat_pos _ Hn) as Hpos.
  unfold of_Z, fdiv. rewrite Qeq_bool_false by lra.
  eexists. split; [reflexivity|].
  unfold Qmean. rewrite fold_left_Qplus. field. lra.
Qed.

(** The lift on two finite means, the baseline mean not zero. *)
Lemma lift_fin (g b : Q) :
  ~ b == 0 -> fround2 (lift (Fin g) (Fin b)) = Fin (Qround2 (lift_formula g b)).
Proof.
  intro Hb. unfold lift. simpl.
  destruct (Qeq_bool b 0) eqn:E;
    [apply Qeq_bool_iff in E; contradiction|].
  reflexivity.
Qed.

(** C5, as stated, fails on the code: with mean 10 for campaign "A" and
    mean 3 for "No Campaign" the table shows the lift 233.33, which is not
    (10 - 3) / 3 * 100. *)
Lemma lift_is_rounded :
  exists res l,
    marketing_campaign_impact
      (Some {| has_campaign_id := true;
               records :=
                 [ {| campaign_id := Some "A"; sales_amount := Fin 10 |};
                   {| campaign_id := Some "No Campaign";
                      sales_amount := Fin 3 |} ] |}) = Ok res /\
    lift_of res "A" = Some l /\
    feq l (Fin (23333 # 100)) /\
    ~ feq l (Fin (lift_formula 10 3)).
Proof.
  do 2 eexists. split; [reflexivity|]. split; [reflexivity|].
  split.
  - vm_compute. reflexivity.
  - intro H. vm_compute in H. discriminate H.
Qed.

(** C5, amended: when "No Campaign" is one of the groups, the lift shown
    for a category is (group_mean - baseline_mean) / baseline_mean * 100
    rounded to two decimals, the baseline mean being finite and not zero,
    and the lift of the baseline category against itself is then 0. *)
Theorem lift_spec (df : DataFrame) (c : string) :
  has_campaign_id df = true ->
  In (Some "No Campaign") (map campaign_id (records df)) ->
  In (Some c) (map campaign_id (records df)) ->
  exists res l,
    marketing_campaign_impact (Some df) = Ok res /\
    table res = campaign_aggregates (records df) /\
    lift_of res c = Some l /\
    (forall g b : Q,
       group_mean c (records df) = Fin g ->
       group_mean "No Campaign" (records df) = Fin b ->
       ~ b == 0 ->
       l = Fin (Qround2 (lift_formula g b)) /\
       (c = "No Campaign" -> feq l (Fin 0))).
Proof.
  intros Hcol Hbase Hc. unfold marketing_campaign_impact.
  rewrite Hcol. cbn [negb].
  rewrite (proj2 (in_index_iff _ _) Hbase), (loc_aggregates _ _ Hbase).
  do 2 eexists. split; [reflexivity|]. split; [reflexivity|].
  unfold lift_of. cbn [sales_lift_pct table].
  rewrite (find_combine_map (fun r => String.eqb (campaign r) c)).
  fold (loc c (campaign_aggregates (records df))).
  rewrite (loc_aggregates _ _ Hc). cbn [option_map snd avg_sale agg_row].
  split; [reflexivity|].
  intros g b Hg Hb Hnz. rewrite Hg, Hb.
  rewrite (lift_fin g b Hnz). split; [reflexivity|].
  intros ->. rewrite Hb in Hg. injection Hg as <-.
  simpl. apply Qround2_zero. unfold lift_formula. field. exact Hnz.
Qed.

(** A small table with a baseline: "A" sells 10, "No Campaign" 3 and 5. *)
Definition sales_with_baseline : DataFrame :=
  {| has_campaign_id := true;
     records :=
       [ {| campaign_id := Some "A"; sales_amount := Fin 10 |};
         {| campaign_id := Some "No Campaign"; sales_amount := Fin 3 |};
         {| campaign_id := Some "No Campaign"; sales_amount := Fin 5 |} ] |}.

Lemma lift_spec_witness :
  exists res l,
    marketing_campaign_impact (Some sales_with_baseline) = Ok res /\
    table res = campaign_aggregates (records sales_with_baseline) /\
    lift_of res "No Campaign" = Some l /\
    (forall g b : Q,
       group_mean "No Campaign" (records sales_with_baseline) = Fin g ->
       group_mean "No Campaign" (records sales_with_baseline) = Fin b ->
       ~ b == 0 ->
       l = Fin (Qround2 (lift_formula g b)) /\
       ("No Campaign" = "No Campaign" -> feq l (Fin 0))).
Proof.
  apply (lift_spec sales_with_baseline "No Campaign").
  - reflexivity.
  - simpl. auto.
  - simpl. auto.
Defined.

(** C6: when no row carries the campaign "No Campaign", the analysis
    raises no error, shows no lift for any category, and returns the
    aggregate table: one row per campaign with the sum, mean and count of
    its amounts. *)
Theorem no_baseline_no_lift (df : DataFrame) :
  has_campaign_id df = true ->
  ~ In (Some "No Campaign") (map campaign_id (records df)) ->
  exists res,
    marketing_campaign_impact (Some df) = Ok res /\
    sales_lift_pct res = None /\
    (forall c, lift_of res c = None) /\
    table res = campaign_aggregates (records df) /\
    (forall r, In r (table res) <->
       In (Some (campaign r)) (map campaign_id (records df)) /\
       campaign r <> "No Campaign" /\
       total_sales r = group_sum (campaign r) (records df) /\
       avg_sale r = group_mean (campaign r) (records df) /\
       num_transactions r = group_count (campaign r) (records df)).
Proof.
  intros Hcol Hbase. unfold marketing_campaign_impact.
  rewrite Hcol. cbn [negb].
  destruct (in_index "No Campaign" (campaign_aggregates (records df)))
    eqn:E; [apply in_index_iff in E; contradiction|].
  eexists. split; [reflexivity|]. cbn [sales_lift_pct table].
  split; [reflexivity|]. split; [reflexivity|]. split; [reflexivity|].
  intro r. rewrite campaign_aggregates_In. split.
  - intros [Hin Hr]. split; [exact Hin|]. split.
    + intro Hk. rewrite Hk in Hin. contradiction.
    + rewrite Hr. simpl. auto.
  - intros (Hin & _ & Hs & Hm & Hn). split; [exact Hin|].
    destruct r as [k s m n]. simpl in *. unfold agg_row. congruence.
Qed.

(** A small table without baseline: "A" sells 10, "B" sells 3. *)
Definition sales_without_baseline : DataFrame :=
  {| has_campaign_id := true;
     records :=
       [ {| campaign_id := Some "A"; sales_amount := Fin 10 |};
         {| campaign_id := Some "B"; sales_amount := Fin 3 |} ] |}.

Lemma no_baseline_no_lift_witness :
  exists res,
    marketing_campaign_impact (Some sales_without_baseline) = Ok res /\
    sales_lift_pct res = None /\
    (forall c, lift_of res c = None) /\
    table res = campaign_aggregates (records sales_without_baseline) /\
    (forall r, In r (table res) <->
       In (Some (campaign r))
          (map campaign_id (records sales_without_baseline)) /\
       campaign r <> "No Campaign" /\
       total_sales r = group_sum (campaign r) (records sales_without_baseline) /\
       avg_sale r = group_mean (campaign r) (records sales_without_baseline) /\
       num_transactions r =
         group_count (campaign r) (records sales_without_baseline)).
Proof.
  apply (no_baseline_no_lift sales_without_baseline).
  - reflexivity.
  - simpl. intros [H|[H|[]]]; discriminate H.
Defined.

End Campaign.

(** ** Outlier capping: step 5 of [clean_retail_data] *)

Module Retail.

(** The three columns the step treats; a column the table lacks is [None].
    All columns of a table have one cell per row. *)
Record retail_frame : Type := {
  price : option series;
  quantity : option series;
  sales_amount : option series
}.

Definition fleb (x y : pyfloat) : bool := negb (flt y x).

(** numpy's linear interpolation between two neighbours. *)
Definition lerp (a b : pyfloat) (gamma : Q) : pyfloat :=
  fadd a (fmul (fsub b a) (Fin gamma)).

(** [np.percentile] with the default linear interpolation, on a sorted,
    non-empty array: the value at the virtual index [q * (n - 1)]. *)
Definition percentile_sorted (q : Q) (arr : series) : pyfloat :=
  let n := List.length arr in
  let vi := q * inject_Z (Z.of_nat (n - 1)) in
  let previous := Z.to_nat (Qfloor vi) in
  let next := Nat.min (S previous) (n - 1) in
  let gamma := vi - inject_Z (Qfloor vi) in
  lerp (nth previous arr NaN) (nth next arr NaN) gamma.

(** [col.quantile(q)]: missing values are skipped; NaN on a column without
    values. *)
Definition quantile (q : Q) (col : series) : pyfloat :=
  match dropna col with
  | [] => NaN
  | values => percentile_sorted q (sort_by fleb values)
  end.

Definition Q1 (col : series) : pyfloat := quantile (1 # 4) col.
Definition Q3 (col : series) : pyfloat := quantile (3 # 4) col.
Definition IQR (col : series) : pyfloat := fsub (Q3 col) (Q1 col).

Definition lower_bound (col : series) : pyfloat :=
  fsub (Q1 col) (fmul (Fin (3 # 2)) (IQR col)).

Definition upper_bound (col : series) : pyfloat :=
  fadd (Q3 col) (fmul (Fin (3 # 2)) (IQR col)).

(** The number of rows with [col < lower_bound] or [col > upper_bound]. *)
Definition outliers (col : series) : nat :=
  List.length
    (filter (fun x => flt x (lower_bound col) || fgt x (upper_bound col)) col).

(** [x.clip(lower, upper)]; a NaN cell stays NaN. *)
Definition clip (lower upper x : pyfloat) : pyfloat :=
  let y := if flt x lower then lower else x in
  if fgt y upper then upper else y.

(** The body of the loop for one column that is present. *)
Definition cap_outliers (col : series) : series :=
  if (0 <? outliers col)%nat
  then map (clip (lower_bound col) (upper_bound col)) col
  else col.

(** Step 5: the loop over [price], [quantity] and [sales_amount]. *)
Definition handle_outliers (df : retail_frame) : retail_frame :=
  {| price := option_map cap_outliers (price df);
     quantity := option_map cap_outliers (quantity df);
     sales_amount := option_map cap_outliers (sales_amount df) |}.

(** The same quantities on a column of numbers. *)

Definition Qpercentile_sorted (q : Q) (arr : list Q) : Q :=
  let n := List.length arr in
  let vi := q * inject_Z (Z.of_nat (n - 1)) in
  let previous := Z.to_nat (Qfloor vi) in
  let next := Nat.min (S previous) (n - 1) in
  let gamma := vi - inject_Z (Qfloor vi) in
  nth previous arr 0 + (nth next arr 0 - nth previous arr 0) * gamma.

Definition Qquantile (q : Q) (vs : list Q) : Q :=
  Qpercentile_sorted q (sort_by Qle_bool vs).

Definition Qlower_bound (vs : list Q) : Q :=
  Qquantile (1 # 4) vs
  - (3 # 2) * (Qquantile (3 # 4) vs - Qquantile (1 # 4) vs).

Definition Qupper_bound (vs : list Q) : Q :=
  Qquantile (3 # 4) vs
  + (3 # 2) * (Qquantile (3 # 4) vs - Qquantile (1 # 4) vs).

(** *** Sorting and quantiles of a column of numbers *)

Lemma fleb_fin (a b : Q) : fleb (Fin a) (Fin b) = Qle_bool a b.
Proof. unfold fleb, flt, Qltb. apply negb_involutive. Qed.

Lemma insert_by_fin (x : Q) (vs : list Q) :
  insert_by fleb (Fin x) (map Fin vs) = map Fin (insert_by Qle_bool x vs).
Proof.
  induction vs as [|v vs IH]; simpl; [reflexivity|].
  rewrite fleb_fin. destruct (Qle_bool x v); simpl; [|rewrite IH];
    reflexivity.
Qed.

Lemma sort_by_fin (vs : list Q) :
  sort_by fleb (map Fin vs) = map Fin (sort_by Qle_bool vs).
Proof.
  induction vs as [|v vs IH]; simpl; [reflexivity|].
  rewrite IH. apply insert_by_fin.
Qed.

Lemma insert_by_sorted (x : Q) (vs : list Q) :
  StronglySorted Qle vs -> StronglySorted Qle (insert_by Qle_bool x vs).
Proof.
  induction 1 as [|v vs Hs IH Hv]; simpl.
  - constructor; constructor.
  - destruct (Qle_bool x v) eqn:E.
    + apply Qle_bool_iff in E.
      constructor; [constructor; assumption|].
      constructor; [exact E|].
      eapply Forall_impl; [|exact Hv].
      intros y Hy. eapply Qle_trans; eassumption.
    + assert (v <= x) as Hvx.
      { apply Qlt_le_weak, Qnot_le_lt. intro Hle.
        apply Qle_bool_iff in Hle. congruence. }
      constructor; [exact IH|].
      eapply Permutation_Forall;
        [apply Permutation_sym, insert_by_perm|].
      constructor; assumption.
Qed.

Lemma sort_by_sorted (vs : list Q) : StronglySorted Qle (sort_by Qle_bool vs).
Proof.
  induction vs as [|v vs IH]; simpl.
  - constructor.
  - apply insert_by_sorted, IH.
Qed.

Lemma sorted_nth (s : list Q) :
  StronglySorted Qle s ->
  forall i j : nat, (i <= j)%nat -> (j < List.length s)%nat ->
  nth i s 0 <= nth j s 0.
Proof.
  induction 1 as [|a s Hs IH Ha]; intros i j Hij Hj; simpl in Hj.
  - lia.
  - destruct i as [|i], j as [|j]; simpl.
    + apply Qle_refl.
    + rewrite Forall_forall in Ha. apply Ha, nth_In. lia.
    + lia.
    + apply IH; lia.
Qed.

(** The value at the virtual index [vi] of a sorted array. *)
Definition interp (s : list Q) (vi : Q) : Q :=
  let previous := Z.to_nat (Qfloor vi) in
  let next := Nat.min (S previous) (List.length s - 1) in
  nth previous s 0
  + (nth next s 0 - nth previous s 0) * (vi - inject_Z (Qfloor vi)).

Lemma Qpercentile_interp (q : Q) (s : list Q) :
  Qpercentile_sorted q s =
    interp s (q * inject_Z (Z.of_nat (List.length s - 1))).
Proof. reflexivity. Qed.

Lemma floor_index (n : nat) (vi : Q) :
  0 <= vi -> vi <= inject_Z (Z.of_nat n) ->
  (0 <= Qfloor vi)%Z /\ (Z.to_nat (Qfloor vi) <= n)%nat.
Proof.
  intros H0 Hn.
  assert (0 <= Qfloor vi)%Z as Hf.
  { change 0%Z with (Qfloor 0). apply Qfloor_resp_le. exact H0. }
  split; [exact Hf|].
  assert (Qfloor vi <= Z.of_nat n)%Z as Hle.
  { rewrite <- (Qfloor_Z (Z.of_nat n)). apply Qfloor_resp_le. exact Hn. }
  lia.
Qed.

Lemma frac_bounds (vi : Q) :
  0 <= vi - inject_Z (Qfloor vi) /\ vi - inject_Z (Qfloor vi) < 1.
Proof.
  pose proof (Qfloor_le vi) as Hl. pose proof (Qlt_floor vi) as Hu.
  rewrite inject_Z_plus in Hu. change (inject_Z 1) with 1 in Hu.
  split; lra.
Qed.

(** The interpolated value lies between its two neighbours. *)
Lemma interp_bounds (s : list Q) (vi : Q) :
  StronglySorted Qle s -> (1 <= List.length s)%nat ->
  0 <= vi -> vi <= inject_Z (Z.of_nat (List.length s - 1)) ->
  nth (Z.to_nat (Qfloor vi)) s 0 <= interp s vi /\
  interp s vi <=
    nth (Nat.min (S (Z.to_nat (Qfloor vi))) (List.length s - 1)) s 0.
Proof.
  intros Hs Hn H0 Hhi.
  destruct (floor_index _ _ H0 Hhi) as [_ Hk].
  destruct (frac_bounds vi) as [Hg0 Hg1].
  unfold interp.
  set (k := Z.to_nat (Qfloor vi)) in *.
  set (g := vi - inject_Z (Qfloor vi)) in *.
  assert (nth k s 0 <= nth (Nat.min (S k) (List.length s - 1)) s 0) as Hd
    by (apply sorted_nth; [exact Hs|lia|lia]).
  set (a := nth k s 0) in *.
  set (b := nth (Nat.min (S k) (List.length s - 1)) s 0) in *.
  split; nra.
Qed.

(** The interpolated value grows with the virtual index. *)
Lemma interp_mono (s : list Q) (v1 v2 : Q) :
  StronglySorted Qle s -> (1 <= List.length s)%nat ->
  0 <= v1 -> v1 <= v2 -> v2 <= inject_Z (Z.of_nat (List.length s - 1)) ->
  interp s v1 <= interp s v2.
Proof.
  intros Hs Hn H0 H12 Hhi.
  assert (v1 <= inject_Z (Z.of_nat (List.length s - 1))) as Hhi1 by lra.
  assert (0 <= v2) as H02 by lra.
  destruct (floor_index _ _ H0 Hhi1) as [Hf1 Hk1].
  destruct (floor_index _ _ H02 Hhi) as [Hf2 Hk2].
  pose proof (Qfloor_resp_le _ _ H12) as Hfl.
  destruct (Z.eq_dec (Qfloor v1) (Qfloor v2)) as [E|Hne].
  - unfold interp. rewrite <- E.
    set (k := Z.to_nat (Qfloor v1)) in *.
    assert (nth k s 0 <= nth (Nat.min (S k) (List.length s - 1)) s 0) as Hd
      by (apply sorted_nth; [exact Hs|lia|lia]).
    set (a := nth k s 0) in *.
    set (b := nth (Nat.min (S k) (List.length s - 1)) s 0) in *.
    set (f := inject_Z (Qfloor v1)) in *.
    nra.
  - destruct (interp_bounds s v1 Hs Hn H0 Hhi1) as [_ Hu].
    destruct (interp_bounds s v2 Hs Hn H02 Hhi) as [Hl _].
    eapply Qle_trans; [exact Hu|].
    eapply Qle_trans; [|exact Hl].
    apply sorted_nth; [exact Hs|lia|lia].
Qed.

Lemma length_sort_Q (vs : list Q) :
  List.length (sort_by Qle_bool vs) = List.length vs.
Proof. apply length_sort_by. Qed.

(** The first quartile is at most the third. *)
Lemma Qquantile_order (vs : list Q) :
  vs <> [] -> Qquantile (1 # 4) vs <= Qquantile (3 # 4) vs.
Proof.
  intro Hne. unfold Qquantile. rewrite !Qpercentile_interp.
  assert (1 <= List.length (sort_by Qle_bool vs))%nat as Hn.
  { rewrite length_sort_Q. destruct vs; [contradiction|simpl; lia]. }
  set (s := sort_by Qle_bool vs) in *.
  assert (0 <= inject_Z (Z.of_nat (List.length s - 1))) as Hm.
  { change 0 with (inject_Z 0). rewrite <- Zle_Qle. lia. }
  apply interp_mono; try lra.
  - apply sort_by_sorted.
  - exact Hn.
Qed.

Lemma Qbounds_order (vs : list Q) :
  vs <> [] -> Qlower_bound vs <= Qupper_bound vs.
Proof.
  intro Hne. pose proof (Qquantile_order vs Hne) as H.
  unfold Qlower_bound, Qupper_bound. lra.
Qed.

(** *** The capping step on a column of numbers *)

Lemma nth_fin (vs : list Q) (i : nat) :
  (i < List.length vs)%nat -> nth i (map Fin vs) NaN = Fin (nth i vs 0).
Proof.
  intro Hi. rewrite (nth_indep _ NaN (Fin 0)) by (rewrite length_map; exact Hi).
  apply map_nth.
Qed.

Lemma percentile_sorted_fin (q : Q) (s : list Q) :
  s <> [] -> 0 <= q -> q <= 1 ->
  percentile_sorted q (map Fin s) = Fin (Qpercentile_sorted q s).
Proof.
  intros Hne Hq0 Hq1.
  assert (1 <= List.length s)%nat as Hn
    by (destruct s; [contradiction|simpl; lia]).
  unfold percentile_sorted, Qpercentile_sorted. rewrite length_map.
  set (m := inject_Z (Z.of_nat (List.length s - 1))).
  assert (0 <= m) as Hm
    by (unfold m; change 0 with (inject_Z 0); rewrite <- Zle_Qle; lia).
  assert (0 <= q * m) as H0 by nra.
  assert (q * m <= m) as Hhi by nra.
  destruct (floor_index _ _ H0 Hhi) as [_ Hk].
  rewrite !nth_fin by lia. reflexivity.
Qed.

Lemma quantile_fin (q : Q) (vs : list Q) :
  vs <> [] -> 0 <= q -> q <= 1 ->
  quantile q (map Fin vs) = Fin (Qquantile q vs).
Proof.
  intros Hne Hq0 Hq1. unfold quantile, Qquantile.
  rewrite dropna_fin.
  destruct vs as [|v vs]; [contradiction|].
  cbn [map]. rewrite <- (map_cons Fin v vs), sort_by_fin.
  apply percentile_sorted_fin; [|exact Hq0|exact Hq1].
  intro E. apply (f_equal (@List.length Q)) in E.
  rewrite length_sort_Q in E. discriminate E.
Qed.

Lemma bounds_fin (vs : list Q) :
  vs <> [] ->
  lower_bound (map Fin vs) = Fin (Qlower_bound vs) /\
  upper_bound (map Fin vs) = Fin (Qupper_bound vs).
Proof.
  intro Hne. unfold lower_bound, upper_bound, IQR, Q1, Q3.
  rewrite !quantile_fin by (exact Hne || lra).
  split; reflexivity.
Qed.

(** [clip] on numbers. *)
Definition Qclip (lo hi x : Q) : Q :=
  let y := if Qltb x lo then lo else x in
  if Qltb hi y then hi else y.

Lemma clip_fin (lo hi x : Q) :
  clip (Fin lo) (Fin hi) (Fin x) = Fin (Qclip lo hi x).
Proof.
  unfold clip, Qclip, fgt, flt.
  destruct (Qltb x lo); destruct (Qltb hi _); reflexivity.
Qed.

Lemma Qclip_range (lo hi x : Q) :
  lo <= hi -> lo <= Qclip lo hi x /\ Qclip lo hi x <= hi.
Proof.
  intro Hb. unfold Qclip.
  destruct (Qltb x lo) eqn:E1.
  - destruct (Qltb hi lo) eqn:E2.
    + apply Qltb_lt in E2. lra.
    + split; [apply Qle_refl|exact Hb].
  - apply Qltb_ge in E1.
    destruct (Qltb hi x) eqn:E2.
    + split; [exact Hb|apply Qle_refl].
    + apply Qltb_ge in E2. split; assumption.
Qed.

Lemma Qclip_inside (lo hi x : Q) :
  lo <= x -> x <= hi -> Qclip lo hi x = x.
Proof.
  intros Hl Hu. unfold Qclip.
  apply Qltb_ge in Hl. rewrite Hl.
  apply Qltb_ge in Hu. rewrite Hu. reflexivity.
Qed.

Lemma filter_length_zero {A : Type} (f : A -> bool) (l : list A) :
  List.length (filter f l) = 0%nat -> Forall (fun x => f x = false) l.
Proof.
  induction l as [|a l IH]; simpl; intro H; [constructor|].
  destruct (f a) eqn:E; [discriminate H|].
  constructor; [exact E|apply IH, H].
Qed.

(** One column: the cells stay finite numbers, one per row, inside the
    bounds of the column as it was; a cell that was inside is kept. *)
Lemma cap_outliers_fin (vs : list Q) :
  exists vs',
    cap_outliers (map Fin vs) = map Fin vs' /\
    List.length vs' = List.length vs /\
    forall (i : nat) (v : Q), nth_error vs i = Some v ->
      lower_bound (map Fin vs) = Fin (Qlower_bound vs) /\
      upper_bound (map Fin vs) = Fin (Qupper_bound vs) /\
      exists v',
        nth_error vs' i = Some v' /\
        Qlower_bound vs <= v' /\ v' <= Qupper_bound vs /\
        (Qlower_bound vs <= v -> v <= Qupper_bound vs -> v' = v).
Proof.
  destruct vs as [|v0 vs0] eqn:Evs.
  { exists []. split; [reflexivity|]. split; [reflexivity|].
    intros [|i] v H; discriminate H. }
  rewrite <- Evs.
  assert (vs <> []) as Hne by (rewrite Evs; discriminate).
  clear Evs v0 vs0.
  destruct (bounds_fin vs Hne) as [Hlo Hhi].
  pose proof (Qbounds_order vs Hne) as Hord.
  unfold cap_outliers.
  destruct (0 <? outliers (map Fin vs))%nat eqn:Eout.
  - exists (map (Qclip (Qlower_bound vs) (Qupper_bound vs)) vs).
    split.
    { rewrite Hlo, Hhi, !map_map. apply map_ext. intro x. apply clip_fin. }
    split; [apply length_map|].
    intros i v Hv. split; [exact Hlo|]. split; [exact Hhi|].
    eexists. split; [apply map_nth_error; exact Hv|].
    destruct (Qclip_range (Qlower_bound vs) (Qupper_bound vs) v Hord).
    split; [assumption|]. split; [assumption|].
    apply Qclip_inside.
  - exists vs. split; [reflexivity|]. split; [reflexivity|].
    intros i v Hv. split; [exact Hlo|]. split; [exact Hhi|].
    exists v. split; [exact Hv|].
    apply Nat.ltb_ge in Eout.
    assert (outliers (map Fin vs) = 0)%nat as Hz by lia.
    unfold outliers in Hz. apply filter_length_zero in Hz.
    rewrite Hlo, Hhi in Hz. rewrite Forall_forall in Hz.
    specialize (Hz (Fin v) (in_map Fin vs v (nth_error_In vs i Hv))).
    apply orb_false_iff in Hz. destruct Hz as [Hz1 Hz2].
    unfold fgt, flt in Hz1, Hz2.
    apply Qltb_ge in Hz1. apply Qltb_ge in Hz2.
    split; [exact Hz1|]. split; [exact Hz2|]. reflexivity.
Qed.

(** C10: after the capping step, in each of the columns price, quantity
    and sales_amount the table has, every value lies within
    [Q1 - 1.5 IQR, Q3 + 1.5 IQR] of the column as it was before the step,
    a value that was inside these bounds is unchanged, and the column has
    the same number of rows; a column the table lacks stays absent. *)
Theorem outlier_capping_spec (df : retail_frame)
    (column : retail_frame -> option series) :
  In column [price; quantity; sales_amount] ->
  (column df = None -> column (handle_outliers df) = None) /\
  (forall vs : list Q, column df = Some (map Fin vs) ->
   exists vs',
     column (handle_outliers df) = Some (map Fin vs') /\
     List.length vs' = List.length vs /\
     forall (i : nat) (v : Q), nth_error vs i = Some v ->
       lower_bound (map Fin vs) = Fin (Qlower_bound vs) /\
       upper_bound (map Fin vs) = Fin (Qupper_bound vs) /\
       exists v',
         nth_error vs' i = Some v' /\
         Qlower_bound vs <= v' /\ v' <= Qupper_bound vs /\
         (Qlower_bound vs <= v -> v <= Qupper_bound vs -> v' = v)).
Proof.
  intro Hcol.
  assert (column (handle_outliers df) = option_map cap_outliers (column df))
    as Hstep.
  { destruct Hcol as [<-|[<-|[<-|[]]]]; reflexivity. }
  rewrite Hstep. split.
  - intros ->. reflexivity.
  - intros vs ->. cbn [option_map].
    destruct (cap_outliers_fin vs) as (vs' & E & Hlen & Hrows).
    exists vs'. rewrite E. split; [reflexivity|].
    split; [exact Hlen|exact Hrows].
Qed.

(** A table with a price column only, one price far from the others. *)
Definition prices_with_outlier : retail_frame :=
  {| price := Some (map Fin [1; 2; 3; 4; 100]);
     quantity := None;
     sales_amount := None |}.

Lemma outlier_capping_spec_witness :
  (price prices_with_outlier = None ->
   price (handle_outliers prices_with_outlier) = None) /\
  (forall vs : list Q,
   price prices_with_outlier = Some (map Fin vs) ->
   exists vs',
     price (handle_outliers prices_with_outlier) = Some (map Fin vs') /\
     List.length vs' = List.length vs /\
     forall (i : nat) (v : Q), nth_error vs i = Some v ->
       lower_bound (map Fin vs) = Fin (Qlower_bound vs) /\
       upper_bound (map Fin vs) = Fin (Qupper_bound vs) /\
       exists v',
         nth_error vs' i = Some v' /\
         Qlower_bound vs <= v' /\ v' <= Qupper_bound vs /\
         (Qlower_bound vs <= v -> v <= Qupper_bound vs -> v' = v)).
Proof.
  apply (outlier_capping_spec prices_with_outlier price).
  simpl. auto.
Defined.

(** On that table the price 100 is capped to the upper bound 7 and the
    other prices are kept. *)
Lemma prices_with_outlier_capped :
  exists col,
    price (handle_outliers prices_with_outlier) = Some col /\
    Forall2 feq col [Fin 1; Fin 2; Fin 3; Fin 4; Fin 7].
Proof.
  eexists. split; [vm_compute; reflexivity|].
  repeat constructor.
Qed.

End Retail.

(** ** Further properties of the stock metrics *)

Module StockInvariants.
Import Stock StockFacts.

Lemma Qsum_bounds (lo hi : Q) (l : list Q) :
  Forall (fun v => lo <= v /\ v <= hi) l ->
  inject_Z (Z.of_nat (List.length l)) * lo <= Qsum l /\
  Qsum l <= inject_Z (Z.of_nat (List.length l)) * hi.
Proof.
  induction 1 as [|v l [Hlo Hhi] _ [IHlo IHhi]].
  - simpl. unfold inject_Z. split; lra.
  - change (Qsum (v :: l)) with (v + Qsum l).
    change (List.length (v :: l)) with (S (List.length l)).
    rewrite Nat2Z.inj_succ. unfold Z.succ. rewrite inject_Z_plus.
    change (inject_Z 1) with 1. split; lra.
Qed.

(** The mean of values between two bounds lies between them. *)
Lemma Qmean_bounds (lo hi : Q) (l : list Q) :
  (1 <= List.length l)%nat ->
  Forall (fun v => lo <= v /\ v <= hi) l ->
  lo <= Qmean l /\ Qmean l <= hi.
Proof.
  intros Hn Hl. destruct (Qsum_bounds lo hi l Hl) as [H1 H2].
  pose proof (inject_nat_pos _ Hn) as Hpos. unfold Qmean. split.
  - apply Qle_shift_div_l; [exact Hpos|]. lra.
  - apply Qle_shift_div_r; [exact Hpos|]. lra.
Qed.

Lemma Forall_firstn {A : Type} (P : A -> Prop) (n : nat) (l : list A) :
  Forall P l -> Forall P (firstn n l).
Proof.
  intro H. revert n. induction H as [|x l Hx _ IH]; intros [|n]; simpl;
    constructor; auto.
Qed.

Lemma Forall_skipn {A : Type} (P : A -> Prop) (n : nat) (l : list A) :
  Forall P l -> Forall P (skipn n l).
Proof.
  intro H. revert n. induction H as [|x l Hx Hl IH]; intros [|n]; simpl;
    try constructor; auto.
Qed.

Lemma Forall_window_at {A : Type} (P : A -> Prop) (N : nat) (s : list A)
    (i : nat) :
  Forall P s -> Forall P (window_at N s i).
Proof.
  intro H. unfold window_at. apply Forall_skipn, Forall_firstn, H.
Qed.

(** A moving average never leaves the range of the prices: between any two
    bounds that hold for every price of the ticker, every defined cell of
    the [N]-row moving average lies too. *)
Theorem moving_average_bounds (N : nat) (vs : list Q) (lo hi : Q) (t : nat)
    (x : pyfloat) :
  (1 <= N)%nat ->
  Forall (fun v => lo <= v /\ v <= hi) vs ->
  nth_error (rolling_mean N (map Fin vs)) t = Some x ->
  isna x = false ->
  exists q, x = Fin q /\ lo <= q /\ q <= hi.
Proof.
  intros HN Hvs Hx Hdef.
  assert (t < List.length vs)%nat as Ht.
  { apply nth_error_lt in Hx.
    rewrite length_rolling_mean, length_map in Hx. exact Hx. }
  rewrite rolling_mean_fin in Hx by assumption.
  injection Hx as <-.
  destruct (N <=? S t)%nat eqn:E; [|discriminate Hdef].
  apply Nat.leb_le in E.
  eexists. split; [reflexivity|].
  apply Qmean_bounds.
  - rewrite length_window_at by exact Ht. lia.
  - apply Forall_window_at. exact Hvs.
Qed.

Lemma moving_average_bounds_witness :
  exists q, Fin (30 # 3) = Fin q /\ 9 <= q /\ q <= 12.
Proof.
  apply (moving_average_bounds 3 [10; 11; 9; 12] 9 12 2 (Fin (30 # 3))).
  - lia.
  - repeat constructor; lra.
  - vm_compute. reflexivity.
  - reflexivity.
Defined.

Lemma rsi_formula_range (ag al : Q) :
  0 <= ag -> 0 < al ->
  0 <= rsi_formula ag al /\ rsi_formula ag al <= 100.
Proof.
  intros Hag Hal. unfold rsi_formula.
  assert (0 <= ag / al) as Hq by (apply Qle_shift_div_l; [exact Hal|lra]).
  assert (0 < 1 + ag / al) as Hd by lra.
  assert (100 / (1 + ag / al) <= 100) as H1
    by (apply Qle_shift_div_r; [exact Hd|lra]).
  assert (0 <= 100 / (1 + ag / al)) as H2
    by (apply Qle_shift_div_l; [exact Hd|lra]).
  split; lra.
Qed.

(** The RSI is a percentage: on prices without missing values every
    defined RSI cell is a number between 0 and 100. *)
Theorem rsi_range (vs : list Q) (t : nat) (r : pyfloat) :
  nth_error (RSI_col (map Fin vs)) t = Some r ->
  isna r = false ->
  exists q, r = Fin q /\ 0 <= q /\ q <= 100.
Proof.
  intros Hr Hdef.
  assert (t < List.length vs)%nat as Ht.
  { apply nth_error_lt in Hr. rewrite length_RSI_col, length_map in Hr.
    exact Hr. }
  rewrite nth_error_RSI_fin in Hr by exact Ht.
  pose proof (avg_gain_at_nonneg vs t) as Hg.
  pose proof (avg_loss_at_nonneg vs t) as Hl.
  destruct (rsi_of_fin _ _ Hg Hl) as (Hnz & Hinf & Hnan).
  destruct (14 <=? S t)%nat; injection Hr as <-; [|discriminate Hdef].
  destruct (Qeq_dec (avg_loss_at vs t) 0) as [Hl0|Hl0].
  - destruct (Qeq_dec (avg_gain_at vs t) 0) as [Hg0|Hg0].
    + rewrite (Hnan Hl0 Hg0) in Hdef. discriminate Hdef.
    + specialize (Hinf Hl0 Hg0).
      destruct (rsi_of _ _) as [q| | |]; simpl in Hinf; try contradiction.
      exists q. split; [reflexivity|]. lra.
  - specialize (Hnz Hl0).
    destruct (rsi_formula_range (avg_gain_at vs t) (avg_loss_at vs t))
      as [H0 H100]; [exact Hg|lra|].
    destruct (rsi_of _ _) as [q| | |]; simpl in Hnz; try contradiction.
    exists q. split; [reflexivity|]. lra.
Qed.

Lemma rsi_range_witness :
  exists q, Fin 100 = Fin q /\ 0 <= q /\ q <= 100.
Proof.
  apply (rsi_range rising_prices 13 (Fin 100)).
  - vm_compute. reflexivity.
  - reflexivity.
Defined.

(** *** Sorting in general *)

Section SortBy.
Context {A : Type} (leb : A -> A -> bool).
Hypothesis leb_total : forall a b, leb a b = true \/ leb b a = true.
Hypothesis leb_trans :
  forall a b c, leb a b = true -> leb b c = true -> leb a c = true.

Lemma insert_by_StronglySorted (x : A) (l : list A) :
  StronglySorted (fun a b => leb a b = true) l ->
  StronglySorted (fun a b => leb a b = true) (insert_by leb x l).
Proof.
  induction 1 as [|y l Hs IH Hy]; simpl.
  - constructor; constructor.
  - destruct (leb x y) eqn:E.
    + constructor; [constructor; assumption|].
      constructor; [exact E|].
      eapply Forall_impl; [|exact Hy].
      intros z Hz. eapply leb_trans; eassumption.
    + assert (leb y x = true) as Hyx
        by (destruct (leb_total x y); congruence).
      constructor; [exact IH|].
      eapply Permutation_Forall;
        [apply Permutation_sym, insert_by_perm|].
      constructor; assumption.
Qed.

Lemma sort_by_StronglySorted (l : list A) :
  StronglySorted (fun a b => leb a b = true) (sort_by leb l).
Proof.
  induction l as [|x l IH]; simpl.
  - constructor.
  - apply insert_by_StronglySorted, IH.
Qed.
End SortBy.

Lemma StronglySorted_map_inv {A B : Type} (f : A -> B) (R : B -> B -> Prop)
    (l : list A) :
  StronglySorted R (map f l) -> StronglySorted (fun a b => R (f a) (f b)) l.
Proof.
  induction l as [|a l IH]; simpl; intro H.
  - constructor.
  - inversion H as [|? ? Hs Hf]; subst.
    constructor; [apply IH, Hs|].
    exact (proj1 (Forall_map f (R (f a)) l) Hf).
Qed.

Lemma StronglySorted_weaken {A : Type} (R R' : A -> A -> Prop)
    (l : list A) :
  (forall a b, R a b -> R' a b) ->
  StronglySorted R l -> StronglySorted R' l.
Proof.
  intro H. induction 1 as [|a l Hs IH Ha]; constructor; [exact IH|].
  eapply Forall_impl; [|exact Ha]. intros b. apply H.
Qed.

Lemma sort_values_Date_sorted (g : list stock_row) :
  StronglySorted (fun a b => (Date a <= Date b)%Z) (sort_values_Date g).
Proof.
  unfold sort_values_Date.
  apply (StronglySorted_weaken
           (fun a b => (Date a <=? Date b)%Z = true)).
  - intros a b H. apply Z.leb_le. exact H.
  - apply sort_by_StronglySorted.
    + intros a b. rewrite !Z.leb_le. lia.
    + intros a b c. rewrite !Z.leb_le. lia.
Qed.

(** *** [calculate_metrics] as a whole *)

Lemma flat_map_nil {A B : Type} (l : list A) :
  flat_map (fun _ : A => @nil B) l = [].
Proof. induction l as [|a l IH]; simpl; auto. Qed.

Lemma Permutation_flat_map_pointwise {A B : Type} (f g : A -> list B)
    (l : list A) :
  (forall a, Permutation (f a) (g a)) ->
  Permutation (flat_map f l) (flat_map g l).
Proof.
  intro H. induction l as [|a l IH]; simpl.
  - apply perm_nil.
  - apply Permutation_app; [apply H|exact IH].
Qed.

Lemma Permutation_flat_map_split {A B : Type} (f g : A -> list B)
    (l : list A) :
  Permutation (flat_map (fun a => f a ++ g a) l)
              (flat_map f l ++ flat_map g l).
Proof.
  induction l as [|a l IH]; simpl.
  - apply perm_nil.
  - rewrite <- !app_assoc. apply Permutation_app_head.
    eapply perm_trans; [apply Permutation_app_head, IH|].
    rewrite !app_assoc. apply Permutation_app_tail, Permutation_app_comm.
Qed.

Lemma flat_map_all_nil {A B : Type} (f : A -> list B) (l : list A) :
  (forall a, In a l -> f a = []) -> flat_map f l = [].
Proof.
  induction l as [|a l IH]; intro H; simpl; [reflexivity|].
  rewrite (H a) by (left; reflexivity).
  apply IH. intros b Hb. apply H. right. exact Hb.
Qed.

(** Among distinct keys, a row falls in the group of its own key only. *)
Lemma flat_map_own_key (r : stock_row) (keys : list string) :
  NoDup keys -> In (Ticker r) keys ->
  flat_map (fun k => if has_ticker k r then [r] else []) keys = [r].
Proof.
  induction 1 as [|k keys Hnin Hnd IH]; intro Hin; [contradiction|].
  cbn [flat_map]. unfold has_ticker at 1.
  destruct (String.eqb (Ticker r) k) eqn:E.
  - apply String.eqb_eq in E. subst k.
    rewrite flat_map_all_nil; [reflexivity|].
    intros k Hk. unfold has_ticker.
    destruct (String.eqb (Ticker r) k) eqn:E'; [|reflexivity].
    apply String.eqb_eq in E'. subst k. contradiction.
  - apply String.eqb_neq in E.
    destruct Hin as [Hin|Hin]; [congruence|]. apply IH, Hin.
Qed.

Lemma groups_partition (df : list stock_row) (keys : list string) :
  NoDup keys -> (forall r, In r df -> In (Ticker r) keys) ->
  Permutation (flat_map (fun k => filter (has_ticker k) df) keys) df.
Proof.
  intros Hnd. induction df as [|r df IH]; intro Hcov.
  - simpl. rewrite flat_map_nil. apply perm_nil.
  - eapply perm_trans.
    + apply (Permutation_flat_map_pointwise _
               (fun k => (if has_ticker k r then [r] else [])
                         ++ filter (has_ticker k) df)).
      intro k. simpl. destruct (has_ticker k r); apply Permutation_refl.
    + eapply perm_trans; [apply Permutation_flat_map_split|].
      rewrite flat_map_own_key by (auto; apply Hcov; left; reflexivity).
      simpl. apply perm_skip, IH.
      intros r' Hr'. apply Hcov. right. exact Hr'.
Qed.

Lemma map_flat_map {A B C : Type} (f : B -> C) (g : A -> list B)
    (l : list A) :
  map f (flat_map g l) = flat_map (fun a => map f (g a)) l.
Proof.
  induction l as [|a l IH]; simpl; [reflexivity|].
  rewrite map_app, IH. reflexivity.
Qed.

(** On rows that all carry a ticker, there is no frame to concatenate only
    when the table is empty; otherwise the frames hold every row once. *)
Lemma calculate_metrics_permutation (df : list stock_row) :
  match calculate_metrics df with
  | None => df = []
  | Some result => df <> [] /\ Permutation (map base result) df
  end.
Proof.
  destruct df as [|r0 df0] eqn:Edf; [reflexivity|].
  rewrite <- Edf.
  assert (df <> []) as Hne by (rewrite Edf; discriminate).
  rewrite (calculate_metrics_flat df Hne).
  split; [exact Hne|].
  rewrite map_flat_map.
  eapply perm_trans.
  - apply (Permutation_flat_map_pointwise _
             (fun k => filter (has_ticker k) df)).
    intro k. destruct (group_metrics_columns (filter (has_ticker k) df))
      as [-> _].
    apply sort_by_perm.
  - apply groups_partition; [apply group_keys_NoDup|].
    intros r Hr. apply group_keys_In, in_map, Hr.
Qed.

(** In the result the rows of every ticker come in date order. *)
Theorem ticker_rows_in_date_order (k : string) (df : list stock_row)
    (result : list metrics_row) :
  calculate_metrics df = Some result ->
  StronglySorted (fun a b => (Date (base a) <= Date (base b))%Z)
                 (rows_of k result).
Proof.
  intro H.
  assert (df <> []) as Hne by (intros ->; discriminate H).
  destruct (rows_of_calculate_metrics k df Hne) as (result' & E & Hrows).
  rewrite H in E. injection E as <-. rewrite Hrows.
  apply (StronglySorted_map_inv base (fun a b => (Date a <= Date b)%Z)).
  destruct (group_metrics_columns (filter (has_ticker k) df)) as [-> _].
  apply sort_values_Date_sorted.
Qed.

(** Two tickers, the rows of the first out of date order. *)
Definition unsorted_prices : list stock_row :=
  [ {| Ticker := "MSFT"; Date := 1; price := Fin 20 |};
    {| Ticker := "AAPL"; Date := 2; price := Fin 11 |};
    {| Ticker := "AAPL"; Date := 1; price := Fin 10 |} ]%string.

Lemma ticker_rows_in_date_order_witness :
  StronglySorted (fun a b => (Date (base a) <= Date (base b))%Z)
    (rows_of "AAPL"
       (flat_map (fun kg => group_metrics (snd kg))
                 (groupby_Ticker unsorted_prices))).
Proof.
  apply (ticker_rows_in_date_order "AAPL" unsorted_prices).
  reflexivity.
Defined.

End StockInvariants.

(** ** Rows without a ticker *)

Module StockKeys.

(** A row of the table as read from the CSV file: the cell of the [Ticker]
    column can be missing. *)
Record csv_row : Type := {
  csv_Ticker : option string;
  csv_Date : Z;
  csv_price : pyfloat
}.

Definition has_key (r : csv_row) : bool :=
  match csv_Ticker r with
  | Some _ => true
  | None => false
  end.

(** The rows that are in a group: [dataframe.groupby('Ticker')] leaves a row
    whose key is missing out of every group ([dropna=True] is the
    default). *)
Definition keyed_rows (dataframe : list csv_row) : list Stock.stock_row :=
  flat_map (fun r =>
              match csv_Ticker r with
              | Some k =>
                  [ {| Stock.Ticker := k;
                       Stock.Date := csv_Date r;
                       Stock.price := csv_price r |} ]
              | None => []
              end) dataframe.

Definition groupby_Ticker (dataframe : list csv_row)
  : list (string * list Stock.stock_row) :=
  Stock.groupby_Ticker (keyed_rows dataframe).

(** [calculate_metrics] on the table as read. *)
Definition calculate_metrics (dataframe : list csv_row)
  : option (list Stock.metrics_row) :=
  Stock.pd_concat
    (map (fun kg => Stock.group_metrics (snd kg)) (groupby_Ticker dataframe)).

(** The input columns of a result row. *)
Definition input_columns (m : Stock.metrics_row) : csv_row :=
  {| csv_Ticker := Some (Stock.Ticker (Stock.base m));
     csv_Date := Stock.Date (Stock.base m);
     csv_price := Stock.price (Stock.base m) |}.

Lemma keyed_rows_filter (df : list csv_row) :
  map (fun r => {| csv_Ticker := Some (Stock.Ticker r);
                   csv_Date := Stock.Date r;
                   csv_price := Stock.price r |}) (keyed_rows df)
    = filter has_key df.
Proof.
  induction df as [|r df IH]; [reflexivity|].
  unfold keyed_rows, has_key in *. cbn [flat_map filter].
  destruct r as [[k|] d p]; cbn [csv_Ticker csv_Date csv_price app map].
  - rewrite IH. reflexivity.
  - exact IH.
Qed.

(** [calculate_metrics] fails (no frame to concatenate) exactly when no row
    of the table has a ticker; otherwise its result holds every row that has
    a ticker exactly once, unaltered in its input columns, and no other row:
    rows without a ticker are dropped without notice. *)
Theorem calculate_metrics_keeps_keyed_rows (df : list csv_row) :
  match calculate_metrics df with
  | None => filter has_key df = []
  | Some result =>
      filter has_key df <> [] /\
      Permutation (map input_columns result) (filter has_key df)
  end.
Proof.
  pose proof (StockInvariants.calculate_metrics_permutation (keyed_rows df))
    as H.
  change (Stock.calculate_metrics (keyed_rows df))
    with (calculate_metrics df) in H.
  rewrite <- keyed_rows_filter.
  destruct (calculate_metrics df) as [result|].
  - destruct H as [Hne Hperm]. split.
    + intro E. apply map_eq_nil in E. contradiction.
    + change (map input_columns result)
        with (map (fun m => (fun r => {| csv_Ticker := Some (Stock.Ticker r);
                                          csv_Date := Stock.Date r;
                                          csv_price := Stock.price r |})
                              (Stock.base m)) result).
      rewrite <- (map_map Stock.base). apply Permutation_map. exact Hperm.
  - rewrite H. reflexivity.
Qed.

(** Three rows, the second without a ticker: it is not in the result. *)
Example row_without_ticker_dropped :
  option_map (map input_columns)
    (calculate_metrics
       [ {| csv_Ticker := Some "MSFT"; csv_Date := 1; csv_price := Fin 20 |};
         {| csv_Ticker := None; csv_Date := 1; csv_price := Fin 7 |};
         {| csv_Ticker := Some "AAPL"; csv_Date := 1; csv_price := Fin 10 |}
       ]%string)
  = Some
      [ {| csv_Ticker := Some "AAPL"; csv_Date := 1; csv_price := Fin 10 |};
        {| csv_Ticker := Some "MSFT"; csv_Date := 1; csv_price := Fin 20 |}
      ]%string.
Proof. vm_compute. reflexivity. Qed.

End StockKeys.

(** ** Rounding to decimals *)

Module Rounding.

(** [round(x, 1)] of numpy, as [Qround2] is [round(x, 2)]. *)
Definition Qround1 (q : Q) : Q := inject_Z (Qround_half_even (q * 10)) / 10.

Definition fround1 (x : pyfloat) : pyfloat :=
  match x with
  | Fin a => Fin (Qround1 a)
  | _ => x
  end.

(** Rounding to the nearest integer moves a number by at most one half. *)
Lemma Qround_half_even_error (q : Q) :
  q - (1 # 2) <= inject_Z (Qround_half_even q) /\
  inject_Z (Qround_half_even q) <= q + (1 # 2).
Proof.
  unfold Qround_half_even.
  pose proof (Qfloor_le q) as Hl. pose proof (Qlt_floor q) as Hu.
  rewrite inject_Z_plus in Hu. change (inject_Z 1) with 1 in Hu.
  destruct (Qltb (q - inject_Z (Qfloor q)) (1 # 2)) eqn:E1.
  - apply Qltb_lt in E1. split; lra.
  - apply Qltb_ge in E1.
    destruct (Qltb (1 # 2) (q - inject_Z (Qfloor q))) eqn:E2.
    + rewrite inject_Z_plus. change (inject_Z 1) with 1. split; lra.
    + apply Qltb_ge in E2.
      destruct (Z.even (Qfloor q)).
      * split; lra.
      * rewrite inject_Z_plus. change (inject_Z 1) with 1. split; lra.
Qed.

Lemma Qround2_error (a : Q) :
  a - (1 # 200) <= Qround2 a /\ Qround2 a <= a + (1 # 200).
Proof.
  destruct (Qround_half_even_error (a * 100)) as [H1 H2].
  unfold Qround2.
  set (z := inject_Z (Qround_half_even (a * 100))) in *.
  split.
  - apply Qle_shift_div_l; [reflexivity|]. lra.
  - apply Qle_shift_div_r; [reflexivity|]. lra.
Qed.

Lemma Qround1_error (a : Q) :
  a - (1 # 20) <= Qround1 a /\ Qround1 a <= a + (1 # 20).
Proof.
  destruct (Qround_half_even_error (a * 10)) as [H1 H2].
  unfold Qround1.
  set (z := inject_Z (Qround_half_even (a * 10))) in *.
  split.
  - apply Qle_shift_div_l; [reflexivity|]. lra.
  - apply Qle_shift_div_r; [reflexivity|]. lra.
Qed.

End Rounding.
Import Rounding.

(** ** Further properties of the campaign analysis *)

Module CampaignInvariants.
Import Campaign.
Local Open Scope string_scope.

(** On the two columns it reads, the analysis stops only at its own test:
    the lookup of the baseline row always finds it. *)
Lemma impact_of_frame (data : option DataFrame) :
  match marketing_campaign_impact data with
  | Ok res =>
      exists df, data = Some df /\ has_campaign_id df = true /\
                 table res = campaign_aggregates (records df)
  | ValueError _ =>
      data = None \/ exists df, data = Some df /\ has_campaign_id df = false
  | KeyError _ => False
  end.
Proof.
  destruct data as [df|]; [|left; reflexivity].
  unfold marketing_campaign_impact.
  destruct (has_campaign_id df) eqn:Hcol; cbn [negb].
  - destruct (in_index "No Campaign" (campaign_aggregates (records df)))
      eqn:E.
    + apply in_index_iff in E. rewrite (loc_aggregates _ _ E).
      exists df. auto.
    + exists df. auto.
  - right. exists df. auto.
Qed.

(** The lift shown for a category of the data, when the baseline is one of
    the groups. *)
Lemma lift_of_impact (df : DataFrame) (c : string) :
  has_campaign_id df = true ->
  In (Some "No Campaign") (map campaign_id (records df)) ->
  In (Some c) (map campaign_id (records df)) ->
  exists res,
    marketing_campaign_impact (Some df) = Ok res /\
    lift_of res c =
      Some (fround2 (lift (group_mean c (records df))
                          (group_mean "No Campaign" (records df)))).
Proof.
  intros Hcol Hbase Hc. unfold marketing_campaign_impact.
  rewrite Hcol. cbn [negb].
  rewrite (proj2 (in_index_iff _ _) Hbase), (loc_aggregates _ _ Hbase).
  eexists. split; [reflexivity|].
  unfold lift_of. cbn [sales_lift_pct table].
  rewrite (find_combine_map (fun r => String.eqb (campaign r) c)).
  fold (loc c (campaign_aggregates (records df))).
  rewrite (loc_aggregates _ _ Hc). reflexivity.
Qed.

(** The lift column is exact to half a cent of a percent: with a finite,
    non-zero baseline mean the lift shown for a category differs from
    (group_mean - baseline_mean) / baseline_mean * 100 by at most 0.005, and
    it is a whole number of hundredths. *)
Theorem lift_rounding_error (df : DataFrame) (c : string) (g b : Q) :
  has_campaign_id df = true ->
  In (Some "No Campaign") (map campaign_id (records df)) ->
  In (Some c) (map campaign_id (records df)) ->
  group_mean c (records df) = Fin g ->
  group_mean "No Campaign" (records df) = Fin b ->
  ~ b == 0 ->
  exists res l,
    marketing_campaign_impact (Some df) = Ok res /\
    lift_of res c = Some (Fin l) /\
    lift_formula g b - (1 # 200) <= l /\
    l <= lift_formula g b + (1 # 200) /\
    exists hundredths : Z, l = inject_Z hundredths / 100.
Proof.
  intros Hcol Hbase Hc Hg Hb Hnz.
  destruct (lift_of_impact df c Hcol Hbase Hc) as (res & Hres & Hlift).
  rewrite Hg, Hb, (lift_fin g b Hnz) in Hlift.
  exists res, (Qround2 (lift_formula g b)).
  split; [exact Hres|]. split; [exact Hlift|].
  destruct (Qround2_error (lift_formula g b)) as [H1 H2].
  split; [exact H1|]. split; [exact H2|].
  eexists. reflexivity.
Qed.

Lemma lift_rounding_error_witness :
  exists res l,
    marketing_campaign_impact (Some sales_with_baseline) = Ok res /\
    lift_of res "A" = Some (Fin l) /\
    lift_formula (10 # 1) (8 # 2) - (1 # 200) <= l /\
    l <= lift_formula (10 # 1) (8 # 2) + (1 # 200) /\
    exists hundredths : Z, l = inject_Z hundredths / 100.
Proof.
  apply (lift_rounding_error sales_with_baseline "A" (10 # 1) (8 # 2)).
  - reflexivity.
  - simpl. auto.
  - simpl. auto.
  - reflexivity.
  - reflexivity.
  - intro H. discriminate H.
Defined.

(** *** Groups partition the rows *)

Section Partition.
Context {A : Type} (p : string -> A -> bool).
Hypothesis p_unique :
  forall k k' a, p k a = true -> p k' a = true -> k = k'.

Lemma flat_map_single (a : A) (keys : list string) :
  NoDup keys ->
  flat_map (fun k => if p k a then [a] else []) keys =
    if existsb (fun k => p k a) keys then [a] else [].
Proof.
  induction 1 as [|k keys Hnin Hnd IH]; [reflexivity|].
  cbn [flat_map existsb]. destruct (p k a) eqn:E; cbn [orb].
  - rewrite StockInvariants.flat_map_all_nil; [reflexivity|].
    intros k' Hk'. destruct (p k' a) eqn:E'; [|reflexivity].
    exfalso. apply Hnin. rewrite (p_unique k k' a E E'). exact Hk'.
  - exact IH.
Qed.

Lemma partition_by_key (l : list A) (keys : list string) :
  NoDup keys ->
  Permutation (flat_map (fun k => filter (p k) l) keys)
              (filter (fun a => existsb (fun k => p k a) keys) l).
Proof.
  intro Hnd. induction l as [|a l IH].
  - simpl. rewrite StockInvariants.flat_map_nil. apply perm_nil.
  - eapply perm_trans.
    + apply (StockInvariants.Permutation_flat_map_pointwise _
               (fun k => ((if p k a then [a] else []) ++ filter (p k) l)%list)).
      intro k. simpl. destruct (p k a); apply Permutation_refl.
    + eapply perm_trans;
        [apply StockInvariants.Permutation_flat_map_split|].
      rewrite (flat_map_single a keys Hnd). cbn [filter].
      destruct (existsb (fun k => p k a) keys).
      * simpl. apply perm_skip, IH.
      * simpl. exact IH.
Qed.
End Partition.

Definition has_campaign (r : sale) : bool :=
  match campaign_id r with
  | Some _ => true
  | None => false
  end.

Lemma in_campaign_unique (k k' : string) (r : sale) :
  in_campaign k r = true -> in_campaign k' r = true -> k = k'.
Proof.
  unfold in_campaign. destruct (campaign_id r) as [c|]; [|discriminate].
  intros H1 H2. apply String.eqb_eq in H1. apply String.eqb_eq in H2.
  congruence.
Qed.

Lemma campaign_keys_NoDup (rows : list sale) : NoDup (campaign_keys rows).
Proof.
  unfold campaign_keys.
  eapply Permutation_NoDup; [apply Permutation_sym, sort_by_perm|].
  apply NoDup_nodup.
Qed.

(** The groups of the aggregate table hold, together, exactly the rows that
    carry a campaign. *)
Lemma campaign_groups_partition (rows : list sale) :
  Permutation
    (flat_map (fun k => filter (in_campaign k) rows) (campaign_keys rows))
    (filter has_campaign rows).
Proof.
  eapply perm_trans.
  - apply (partition_by_key in_campaign in_campaign_unique).
    apply campaign_keys_NoDup.
  - rewrite (filter_ext_in _ has_campaign); [apply Permutation_refl|].
    intros r Hr. unfold has_campaign.
    destruct (campaign_id r) as [c|] eqn:E.
    + apply existsb_exists. exists c. split.
      * apply campaign_keys_In. rewrite <- E. apply in_map. exact Hr.
      * unfold in_campaign. rewrite E. apply String.eqb_refl.
    + destruct (existsb _ _) eqn:Ex; [|reflexivity].
      apply existsb_exists in Ex. destruct Ex as (k & _ & Hk).
      unfold in_campaign in Hk. rewrite E in Hk. discriminate Hk.
Qed.

Lemma Permutation_filter {A : Type} (f : A -> bool) (l l' : list A) :
  Permutation l l' -> Permutation (filter f l) (filter f l').
Proof.
  induction 1 as [|x l l' _ IH|x y l|l l' l'' _ IH1 _ IH2]; simpl.
  - apply perm_nil.
  - destruct (f x); [apply perm_skip|]; exact IH.
  - destruct (f x), (f y); try apply Permutation_refl. apply perm_swap.
  - eapply perm_trans; eassumption.
Qed.

Lemma Qsum_app (l1 l2 : list Q) : Qsum (l1 ++ l2) == Qsum l1 + Qsum l2.
Proof.
  induction l1 as [|x l1 IH]; simpl; [ring|]. rewrite IH. ring.
Qed.

Lemma Qsum_perm (l l' : list Q) : Permutation l l' -> Qsum l == Qsum l'.
Proof.
  induction 1 as [|x l l' _ IH|x y l|l l' l'' _ IH1 _ IH2]; simpl.
  - reflexivity.
  - rewrite IH. reflexivity.
  - ring.
  - rewrite IH1. exact IH2.
Qed.

Lemma Qsum_flat_map {A : Type} (f : A -> list Q) (l : list A) :
  Qsum (flat_map f l) == Qsum (map (fun a => Qsum (f a)) l).
Proof.
  induction l as [|a l IH]; simpl; [reflexivity|].
  rewrite Qsum_app, IH. reflexivity.
Qed.

Lemma Qsum_map_ext {A : Type} (f g : A -> Q) (l : list A) :
  (forall a, f a == g a) -> Qsum (map f l) == Qsum (map g l).
Proof.
  intro H. induction l as [|a l IH]; simpl; [reflexivity|].
  rewrite H, IH. reflexivity.
Qed.

(** Without infinite amounts the cells that are not missing are numbers. *)
Lemma dropna_observed (l : series) :
  Forall (fun x => isinf x = false) l -> dropna l = map Fin (observed l).
Proof.
  induction 1 as [|x l Hx _ IH]; [reflexivity|].
  unfold dropna, observed in *. cbn [filter flat_map].
  destruct x; try discriminate Hx; cbn [isna negb app map];
    rewrite IH; reflexivity.
Qed.

Definition no_infinite_amount (rows : list sale) : Prop :=
  Forall (fun r => isinf (sales_amount r) = false) rows.

Lemma group_amounts_no_inf (c : string) (rows : list sale) :
  no_infinite_amount rows ->
  Forall (fun x => isinf x = false) (group_amounts c rows).
Proof.
  intro H. unfold group_amounts. apply Forall_map, Forall_forall.
  intros r Hr. apply filter_In in Hr. destruct Hr as [Hr _].
  unfold no_infinite_amount in H. rewrite Forall_forall in H. auto.
Qed.

(** The total of a group, as a number. *)
Definition Qgroup_sum (c : string) (rows : list sale) : Q :=
  fold_left Qplus (observed (group_amounts c rows)) 0.

Lemma group_sum_fin (c : string) (rows : list sale) :
  no_infinite_amount rows -> group_sum c rows = Fin (Qgroup_sum c rows).
Proof.
  intro H. unfold group_sum, fsum, Qgroup_sum.
  rewrite (dropna_observed _ (group_amounts_no_inf c rows H)).
  apply fsum_from_fin.
Qed.

Lemma length_flat_map_sum {A B : Type} (f : A -> list B) (l : list A) :
  List.length (flat_map f l) = list_sum (map (fun a => List.length (f a)) l).
Proof.
  induction l as [|a l IH]; simpl; [reflexivity|].
  rewrite length_app, IH. reflexivity.
Qed.

Lemma list_sum_perm (l l' : list nat) :
  Permutation l l' -> list_sum l = list_sum l'.
Proof.
  induction 1 as [|x l l' _ IH|x y l|l l' l'' _ IH1 _ IH2]; simpl; lia.
Qed.

Lemma flat_map_map_filter {A B C : Type} (g : list B -> list C)
    (h : A -> B) (f : string -> list A) (keys : list string) :
  (forall l1 l2, g (l1 ++ l2)%list = (g l1 ++ g l2)%list) -> g [] = [] ->
  flat_map (fun k => g (map h (f k))) keys = g (map h (flat_map f keys)).
Proof.
  intros Happ Hnil. induction keys as [|k keys IH]; simpl.
  - symmetry. exact Hnil.
  - rewrite map_app, Happ, IH. reflexivity.
Qed.

(** The totals and the counts of a table of float amounts. *)
Lemma float_totals_conserved (rows : list sale) :
  no_infinite_amount rows ->
  exists total : Q,
    fsum (map total_sales (campaign_aggregates rows)) = Fin total /\
    total == Qsum (observed (map sales_amount (filter has_campaign rows))) /\
    list_sum (map num_transactions (campaign_aggregates rows)) =
      List.length (dropna (map sales_amount (filter has_campaign rows))).
Proof.
  intro Hfin.
  pose proof (sort_by_perm sum_desc (map (agg_row rows) (campaign_keys rows)))
    as Hperm. fold (campaign_aggregates rows) in Hperm.
  pose proof (campaign_groups_partition rows) as Hpart.
  exists (fold_left Qplus
            (map (fun r => Qgroup_sum (campaign r) rows)
                 (campaign_aggregates rows)) 0).
  split; [|split].
  - unfold fsum. rewrite <- fsum_from_fin. f_equal.
    rewrite map_map. apply map_ext_in. intros r Hr.
    apply campaign_aggregates_In in Hr. destruct Hr as [_ Hr].
    rewrite Hr at 1. cbn [total_sales agg_row].
    apply group_sum_fin, Hfin.
  - rewrite fold_left_Qplus, Qplus_0_l.
    rewrite (Qsum_perm _ _ (Permutation_map _ Hperm)), map_map.
    cbn [campaign agg_row].
    rewrite (Qsum_map_ext _
               (fun k => Qsum (observed (group_amounts k rows))))
      by (intro k; unfold Qgroup_sum;
          rewrite fold_left_Qplus; apply Qplus_0_l).
    rewrite <- Qsum_flat_map. unfold group_amounts.
    rewrite (flat_map_map_filter observed sales_amount
               (fun k => filter (in_campaign k) rows));
      [|intros l1 l2; apply flat_map_app|reflexivity].
    apply Qsum_perm. unfold observed.
    apply Permutation_flat_map, Permutation_map, Hpart.
  - rewrite (list_sum_perm _ _ (Permutation_map _ Hperm)), map_map.
    cbn [num_transactions agg_row]. unfold group_count, group_amounts.
    rewrite <- length_flat_map_sum.
    rewrite (flat_map_map_filter dropna sales_amount
               (fun k => filter (in_campaign k) rows));
      [|intros l1 l2; apply filter_app|reflexivity].
    apply Permutation_length. unfold dropna.
    apply Permutation_filter, Permutation_map, Hpart.
Qed.

(** *** Amounts of whole numbers *)

(** pandas reads a [sales_amount] column of whole numbers without gaps as
    int64, and any other numeric column as float64.  The group sums of an
    int64 column are computed in int64: they wrap around at 64 bits without
    notice. *)
Definition wrap_int64 (z : Z) : Z := ((z + 2 ^ 63) mod 2 ^ 64 - 2 ^ 63)%Z.

Definition is_int64 (z : Z) : Prop := (- 2 ^ 63 <= z < 2 ^ 63)%Z.

Definition int64_sum (l : list Z) : Z :=
  fold_left (fun acc x => wrap_int64 (acc + x)) l 0%Z.

(** A row of a table whose amounts are int64. *)
Record int_sale : Type := {
  int_campaign_id : option string;
  int_sales_amount : Z
}.

Definition in_int_campaign (c : string) (r : int_sale) : bool :=
  match int_campaign_id r with
  | Some c' => String.eqb c' c
  | None => false
  end.

Definition has_int_campaign (r : int_sale) : bool :=
  match int_campaign_id r with
  | Some _ => true
  | None => false
  end.

(** The group keys, as [campaign_keys]. *)
Definition int_campaign_keys (rows : list int_sale) : list string :=
  sort_by String.leb
    (nodup string_dec
       (flat_map (fun r => match int_campaign_id r with
                           | Some c => [c]
                           | None => []
                           end) rows)).

Definition int_group_amounts (c : string) (rows : list int_sale) : list Z :=
  map int_sales_amount (filter (in_int_campaign c) rows).

(** The sum and count columns of the aggregate table (an int64 column has
    no missing cell, so the count of a group is its number of rows); the
    mean column is left out. *)
Record int_campaign_row : Type := {
  int_campaign : string;
  int_total_sales : Z;
  int_num_transactions : nat
}.

Definition int_agg_row (rows : list int_sale) (c : string)
  : int_campaign_row :=
  {| int_campaign := c;
     int_total_sales := int64_sum (int_group_amounts c rows);
     int_num_transactions := List.length (int_group_amounts c rows) |}.

Definition int_campaign_aggregates (rows : list int_sale)
  : list int_campaign_row :=
  sort_by (fun a b => (int_total_sales b <=? int_total_sales a)%Z)
          (map (int_agg_row rows) (int_campaign_keys rows)).

(** The rows of the sales table, by the dtype of the amounts. *)
Inductive sales_rows : Type :=
| Float64 (rows : list sale)
| Int64 (rows : list int_sale).

(** What the dtype says of the cells: a float64 column is here taken
    without infinite amounts, the cells of an int64 column are in range. *)
Definition well_typed (t : sales_rows) : Prop :=
  match t with
  | Float64 rows => no_infinite_amount rows
  | Int64 rows => Forall (fun r => is_int64 (int_sales_amount r)) rows
  end.

Definition Zsum (l : list Z) : Z := fold_right Z.add 0%Z l.

Lemma wrap_int64_range (z : Z) : is_int64 (wrap_int64 z).
Proof.
  unfold is_int64, wrap_int64.
  pose proof (Z.mod_pos_bound (z + 2 ^ 63) (2 ^ 64) eq_refl) as H.
  set (m := ((z + 2 ^ 63) mod 2 ^ 64)%Z) in *.
  change (2 ^ 64)%Z with 18446744073709551616%Z in H.
  change (2 ^ 63)%Z with 9223372036854775808%Z. lia.
Qed.

Lemma wrap_int64_small (z : Z) : is_int64 z -> wrap_int64 z = z.
Proof.
  unfold is_int64, wrap_int64. intro H.
  change (2 ^ 63)%Z with 9223372036854775808%Z in *.
  change (2 ^ 64)%Z with 18446744073709551616%Z.
  rewrite Z.mod_small; lia.
Qed.

Lemma wrap_int64_add (a b : Z) :
  wrap_int64 (wrap_int64 a + b) = wrap_int64 (a + b).
Proof.
  unfold wrap_int64. f_equal.
  replace ((a + 2 ^ 63) mod 2 ^ 64 - 2 ^ 63 + b + 2 ^ 63)%Z
    with ((a + 2 ^ 63) mod 2 ^ 64 + b)%Z by lia.
  rewrite Zplus_mod_idemp_l. f_equal. lia.
Qed.

Lemma wrap_int64_add_r (a b b' : Z) :
  wrap_int64 b = wrap_int64 b' -> wrap_int64 (a + b) = wrap_int64 (a + b').
Proof.
  intro H.
  rewrite (Z.add_comm a b), (Z.add_comm a b').
  rewrite <- (wrap_int64_add b a), <- (wrap_int64_add b' a), H.
  reflexivity.
Qed.

Lemma int64_sum_from (l : list Z) (a : Z) :
  fold_left (fun acc x => wrap_int64 (acc + x)) l (wrap_int64 a)
    = wrap_int64 (a + Zsum l).
Proof.
  revert a. induction l as [|x l IH]; intro a; simpl.
  - rewrite Z.add_0_r. reflexivity.
  - rewrite wrap_int64_add, IH. f_equal. lia.
Qed.

(** An int64 sum is the exact sum, wrapped once. *)
Lemma int64_sum_wrap (l : list Z) : int64_sum l = wrap_int64 (Zsum l).
Proof.
  unfold int64_sum. change 0%Z with (wrap_int64 0) at 1.
  rewrite int64_sum_from. reflexivity.
Qed.

Lemma wrap_int64_Zsum_map {A : Type} (g : A -> Z) (l : list A) :
  wrap_int64 (Zsum (map (fun a => wrap_int64 (g a)) l))
    = wrap_int64 (Zsum (map g l)).
Proof.
  induction l as [|a l IH]; simpl; [reflexivity|].
  rewrite wrap_int64_add. apply wrap_int64_add_r. exact IH.
Qed.

Lemma Zsum_app (l1 l2 : list Z) : Zsum (l1 ++ l2) = (Zsum l1 + Zsum l2)%Z.
Proof.
  induction l1 as [|x l1 IH]; simpl; [reflexivity|]. rewrite IH. lia.
Qed.

Lemma Zsum_perm (l l' : list Z) : Permutation l l' -> Zsum l = Zsum l'.
Proof.
  induction 1 as [|x l l' _ IH|x y l|l l' l'' _ IH1 _ IH2]; simpl; lia.
Qed.

Lemma Zsum_flat_map {A : Type} (f : A -> list Z) (l : list A) :
  Zsum (flat_map f l) = Zsum (map (fun a => Zsum (f a)) l).
Proof.
  induction l as [|a l IH]; simpl; [reflexivity|].
  rewrite Zsum_app, IH. reflexivity.
Qed.

Lemma in_int_campaign_unique (k k' : string) (r : int_sale) :
  in_int_campaign k r = true -> in_int_campaign k' r = true -> k = k'.
Proof.
  unfold in_int_campaign. destruct (int_campaign_id r) as [c|]; [|discriminate].
  intros H1 H2. apply String.eqb_eq in H1. apply String.eqb_eq in H2.
  congruence.
Qed.

Lemma int_campaign_keys_NoDup (rows : list int_sale) :
  NoDup (int_campaign_keys rows).
Proof.
  unfold int_campaign_keys.
  eapply Permutation_NoDup; [apply Permutation_sym, sort_by_perm|].
  apply NoDup_nodup.
Qed.

Lemma int_campaign_keys_In (c : string) (r : int_sale)
    (rows : list int_sale) :
  In r rows -> int_campaign_id r = Some c -> In c (int_campaign_keys rows).
Proof.
  intros Hr Hc. unfold int_campaign_keys.
  eapply Permutation_in; [apply Permutation_sym, sort_by_perm|].
  apply nodup_In, in_flat_map. exists r. split; [exact Hr|].
  rewrite Hc. left. reflexivity.
Qed.

Lemma int_groups_partition (rows : list int_sale) :
  Permutation
    (flat_map (fun k => filter (in_int_campaign k) rows)
              (int_campaign_keys rows))
    (filter has_int_campaign rows).
Proof.
  eapply perm_trans.
  - apply (partition_by_key in_int_campaign in_int_campaign_unique).
    apply int_campaign_keys_NoDup.
  - rewrite (filter_ext_in _ has_int_campaign); [apply Permutation_refl|].
    intros r Hr. unfold has_int_campaign.
    destruct (int_campaign_id r) as [c|] eqn:E.
    + apply existsb_exists. exists c. split.
      * apply (int_campaign_keys_In c r rows Hr E).
      * unfold in_int_campaign. rewrite E. apply String.eqb_refl.
    + destruct (existsb _ _) eqn:Ex; [|reflexivity].
      apply existsb_exists in Ex. destruct Ex as (k & _ & Hk).
      unfold in_int_campaign in Hk. rewrite E in Hk. discriminate Hk.
Qed.

(** The exact group sums add up to the exact sum of the rows with a
    campaign. *)
Lemma int_group_sums (rows : list int_sale) :
  Zsum (map (fun k => Zsum (int_group_amounts k rows))
            (int_campaign_keys rows))
    = Zsum (map int_sales_amount (filter has_int_campaign rows)).
Proof.
  rewrite <- Zsum_flat_map. unfold int_group_amounts.
  rewrite (flat_map_map_filter (fun l => l) int_sales_amount
             (fun k => filter (in_int_campaign k) rows));
    [|reflexivity|reflexivity].
  apply Zsum_perm, Permutation_map, int_groups_partition.
Qed.

Lemma int_totals_perm (rows : list int_sale) :
  Permutation (int_campaign_aggregates rows)
              (map (int_agg_row rows) (int_campaign_keys rows)).
Proof. apply sort_by_perm. Qed.

(** Grouping loses no row, and loses no amount but by overflow.  The
    transaction counts of the aggregate table add up to the number of rows
    that carry a campaign and an amount; rows without a campaign are in no
    group.  On a float64 column the totals add up to the sum of the amounts
    of these rows.  On an int64 column every total is an int64, the totals
    add up to that sum modulo 2^64 only, and exactly when no group sum
    leaves the int64 range. *)
Theorem campaign_totals_conserved (t : sales_rows) :
  well_typed t ->
  match t with
  | Float64 rows =>
      (exists total : Q,
         fsum (map total_sales (campaign_aggregates rows)) = Fin total /\
         total ==
           Qsum (observed (map sales_amount (filter has_campaign rows)))) /\
      list_sum (map num_transactions (campaign_aggregates rows)) =
        List.length (dropna (map sales_amount (filter has_campaign rows)))
  | Int64 rows =>
      Forall is_int64 (map int_total_sales (int_campaign_aggregates rows)) /\
      wrap_int64 (Zsum (map int_total_sales (int_campaign_aggregates rows)))
        = wrap_int64
            (Zsum (map int_sales_amount (filter has_int_campaign rows))) /\
      ((forall c, is_int64 (Zsum (int_group_amounts c rows))) ->
       Zsum (map int_total_sales (int_campaign_aggregates rows))
         = Zsum (map int_sales_amount (filter has_int_campaign rows))) /\
      list_sum (map int_num_transactions (int_campaign_aggregates rows)) =
        List.length (filter has_int_campaign rows)
  end.
Proof.
  destruct t as [rows|rows]; intro Hwt.
  - destruct (float_totals_conserved rows Hwt) as (total & H1 & H2 & H3).
    split; [|exact H3]. exists total. split; assumption.
  - pose proof (int_totals_perm rows) as Hperm.
    assert (map int_total_sales
              (map (int_agg_row rows) (int_campaign_keys rows))
            = map (fun k => wrap_int64 (Zsum (int_group_amounts k rows)))
                  (int_campaign_keys rows)) as Htot.
    { rewrite map_map. apply map_ext. intro k.
      cbn [int_total_sales int_agg_row]. apply int64_sum_wrap. }
    split; [|split; [|split]].
    + apply Forall_forall. intros x Hx.
      apply (Permutation_in _ (Permutation_map _ Hperm)) in Hx.
      rewrite Htot in Hx. apply in_map_iff in Hx.
      destruct Hx as (k & <- & _). apply wrap_int64_range.
    + rewrite (Zsum_perm _ _ (Permutation_map _ Hperm)), Htot.
      rewrite wrap_int64_Zsum_map, int_group_sums. reflexivity.
    + intro Hfit.
      rewrite (Zsum_perm _ _ (Permutation_map _ Hperm)), Htot.
      rewrite <- int_group_sums. f_equal. apply map_ext. intro k.
      apply wrap_int64_small, Hfit.
    + rewrite (list_sum_perm _ _ (Permutation_map _ Hperm)), map_map.
      cbn [int_num_transactions int_agg_row]. unfold int_group_amounts.
      rewrite <- length_flat_map_sum.
      rewrite (flat_map_map_filter (fun l => l) int_sales_amount
                 (fun k => filter (in_int_campaign k) rows));
        [|reflexivity|reflexivity].
      rewrite length_map. apply Permutation_length, int_groups_partition.
Qed.

(** Whole amounts, the two of campaign "A" adding up to 2^63. *)
Definition sales_that_overflow : list int_sale :=
  [ {| int_campaign_id := Some "A";
       int_sales_amount := 9223372036854775807 |};
    {| int_campaign_id := Some "B"; int_sales_amount := 5 |};
    {| int_campaign_id := Some "A"; int_sales_amount := 1 |};
    {| int_campaign_id := None; int_sales_amount := 7 |} ].

Lemma campaign_totals_conserved_witness :
  Forall is_int64
    (map int_total_sales (int_campaign_aggregates sales_that_overflow)) /\
  wrap_int64
    (Zsum (map int_total_sales (int_campaign_aggregates sales_that_overflow)))
    = wrap_int64
        (Zsum (map int_sales_amount
                   (filter has_int_campaign sales_that_overflow))) /\
  ((forall c, is_int64 (Zsum (int_group_amounts c sales_that_overflow))) ->
   Zsum (map int_total_sales (int_campaign_aggregates sales_that_overflow))
     = Zsum (map int_sales_amount
                 (filter has_int_campaign sales_that_overflow))) /\
  list_sum
    (map int_num_transactions (int_campaign_aggregates sales_that_overflow))
    = List.length (filter has_int_campaign sales_that_overflow).
Proof.
  apply (campaign_totals_conserved (Int64 sales_that_overflow)).
  unfold well_typed, is_int64. repeat constructor; cbn; lia.
Defined.

(** The total of campaign "A" has wrapped around; on float amounts the
    totals are the sums. *)
Example overflowing_totals :
  map (fun r => (int_campaign r, int_total_sales r, int_num_transactions r))
      (int_campaign_aggregates sales_that_overflow)
  = [ ("B", 5%Z, 1%nat); ("A", (-9223372036854775808)%Z, 2%nat) ].
Proof. vm_compute. reflexivity. Qed.

Example float_totals :
  map (fun r => (campaign r, total_sales r, num_transactions r))
      (campaign_aggregates (records sales_with_baseline))
  = [ ("A", Fin 10, 1%nat); ("No Campaign", Fin 8, 2%nat) ].
Proof. vm_compute. reflexivity. Qed.

(** *** The order of the aggregate table *)

(** The order [sum_desc] puts on the totals: larger first, NaN last. *)
Definition fdesc (x y : pyfloat) : bool :=
  if isna y then true else if isna x then false else negb (flt x y).

Lemma fdesc_total (x y : pyfloat) : fdesc x y = true \/ fdesc y x = true.
Proof.
  destruct x as [a| | |], y as [b| | |]; cbn; auto.
  destruct (Qltb a b) eqn:E1; [|auto].
  destruct (Qltb b a) eqn:E2; [|auto].
  apply Qltb_lt in E1. apply Qltb_lt in E2. lra.
Qed.

Lemma fdesc_trans (x y z : pyfloat) :
  fdesc x y = true -> fdesc y z = true -> fdesc x z = true.
Proof.
  destruct x as [a| | |], y as [b| | |], z as [c| | |]; cbn;
    try reflexivity; try discriminate.
  rewrite !negb_true_iff, !Qltb_ge. intros H1 H2. lra.
Qed.

Lemma StronglySorted_nth_error {A : Type} (R : A -> A -> Prop) (l : list A) :
  StronglySorted R l ->
  forall (i j : nat) (a b : A),
    (i < j)%nat -> nth_error l i = Some a -> nth_error l j = Some b ->
    R a b.
Proof.
  induction 1 as [|x l Hs IH Hx]; intros i j a b Hij Ha Hb.
  - destruct i; discriminate Ha.
  - destruct j as [|j]; [lia|]. simpl in Hb.
    destruct i as [|i]; simpl in Ha.
    + injection Ha as <-. rewrite Forall_forall in Hx.
      apply Hx. eapply nth_error_In. exact Hb.
    + apply (IH i j); [lia|assumption|assumption].
Qed.

(** The aggregate table comes in non-increasing order of total sales: of
    two rows with finite totals the earlier one has the larger (or equal)
    total. *)
Theorem campaign_table_sorted (rows : list sale) (i j : nat)
    (a b : campaign_row) (x y : Q) :
  (i <= j)%nat ->
  nth_error (campaign_aggregates rows) i = Some a ->
  nth_error (campaign_aggregates rows) j = Some b ->
  total_sales a = Fin x -> total_sales b = Fin y ->
  y <= x.
Proof.
  intros Hij Ha Hb Hx Hy.
  destruct (Nat.eq_dec i j) as [->|Hne].
  - rewrite Ha in Hb. injection Hb as <-. rewrite Hx in Hy.
    injection Hy as <-. apply Qle_refl.
  - assert (sum_desc a b = true) as Hs.
    { refine (StronglySorted_nth_error (fun a b => sum_desc a b = true)
                (campaign_aggregates rows) _ i j a b _ Ha Hb); [|lia].
      apply StockInvariants.sort_by_StronglySorted.
      - intros r1 r2. apply fdesc_total.
      - intros r1 r2 r3. apply fdesc_trans. }
    unfold sum_desc in Hs. rewrite Hx, Hy in Hs. cbn in Hs.
    apply negb_true_iff, Qltb_ge in Hs. exact Hs.
Qed.

Lemma campaign_table_sorted_witness : 8 <= 10.
Proof.
  apply (campaign_table_sorted (records sales_with_baseline) 0 1
           {| campaign := "A"; total_sales := Fin 10;
              avg_sale := Fin (10 # 1); num_transactions := 1 |}
           {| campaign := "No Campaign"; total_sales := Fin 8;
              avg_sale := Fin (8 # 2); num_transactions := 2 |} 10 8).
  - lia.
  - reflexivity.
  - reflexivity.
  - reflexivity.
  - reflexivity.
Defined.

End CampaignInvariants.

(** ** The other steps of [clean_retail_data] *)

Module Cleaning.
Import Retail.

(** *** Step 5 once more: capping is clipping *)

Lemma Qclip_below (lo hi x : Q) : lo <= hi -> x < lo -> Qclip lo hi x = lo.
Proof.
  intros Hb Hx. unfold Qclip.
  apply Qltb_lt in Hx. rewrite Hx.
  apply Qltb_ge in Hb. rewrite Hb. reflexivity.
Qed.

Lemma Qclip_above (lo hi x : Q) : lo <= hi -> hi < x -> Qclip lo hi x = hi.
Proof.
  intros Hb Hx. unfold Qclip.
  assert (Qltb x lo = false) as -> by (apply Qltb_ge; lra).
  apply Qltb_lt in Hx. rewrite Hx. reflexivity.
Qed.

Lemma Qclip_mono (lo hi x y : Q) :
  lo <= hi -> x <= y -> Qclip lo hi x <= Qclip lo hi y.
Proof.
  intros Hb Hxy.
  destruct (Qlt_le_dec x lo) as [Hx|Hx].
  - rewrite (Qclip_below lo hi x Hb Hx).
    apply (Qclip_range lo hi y Hb).
  - destruct (Qlt_le_dec hi y) as [Hy|Hy].
    + rewrite (Qclip_above lo hi y Hb Hy).
      apply (Qclip_range lo hi x Hb).
    + destruct (Qlt_le_dec hi x) as [Hx'|Hx'].
      * lra.
      * rewrite (Qclip_inside lo hi x Hx Hx').
        rewrite (Qclip_inside lo hi y) by lra. exact Hxy.
Qed.

(** Whether or not an outlier was counted, the step amounts to clipping
    every cell to the bounds of the column. *)
Lemma cap_outliers_clip (vs : list Q) :
  cap_outliers (map Fin vs) =
    map Fin (map (Qclip (Qlower_bound vs) (Qupper_bound vs)) vs).
Proof.
  destruct vs as [|v0 vs0] eqn:Evs; [reflexivity|].
  rewrite <- Evs.
  assert (vs <> []) as Hne by (rewrite Evs; discriminate).
  clear Evs v0 vs0.
  destruct (bounds_fin vs Hne) as [Hlo Hhi].
  unfold cap_outliers.
  destruct (0 <? outliers (map Fin vs))%nat eqn:Eout.
  - rewrite Hlo, Hhi, !map_map. apply map_ext. intro x. apply clip_fin.
  - f_equal. rewrite <- (map_id vs) at 1. apply map_ext_in.
    intros v Hv. symmetry.
    apply Nat.ltb_ge in Eout.
    assert (outliers (map Fin vs) = 0)%nat as Hz by lia.
    unfold outliers in Hz. apply filter_length_zero in Hz.
    rewrite Hlo, Hhi in Hz. rewrite Forall_forall in Hz.
    specialize (Hz (Fin v) (in_map Fin vs v Hv)).
    apply orb_false_iff in Hz. destruct Hz as [Hz1 Hz2].
    unfold fgt, flt in Hz1, Hz2.
    apply Qltb_ge in Hz1. apply Qltb_ge in Hz2.
    apply Qclip_inside; assumption.
Qed.

(** Capping keeps the order of the cells: a cell that was at most another
    is at most the other afterwards; a cell below the lower bound becomes
    the lower bound, a cell above the upper bound the upper bound. *)
Theorem capping_preserves_order (vs : list Q) :
  exists vs',
    cap_outliers (map Fin vs) = map Fin vs' /\
    forall (i j : nat) (v w : Q),
      nth_error vs i = Some v -> nth_error vs j = Some w ->
      exists v' w',
        nth_error vs' i = Some v' /\ nth_error vs' j = Some w' /\
        (v <= w -> v' <= w') /\
        (v < Qlower_bound vs -> v' = Qlower_bound vs) /\
        (Qupper_bound vs < v -> v' = Qupper_bound vs).
Proof.
  exists (map (Qclip (Qlower_bound vs) (Qupper_bound vs)) vs).
  split; [apply cap_outliers_clip|].
  intros i j v w Hv Hw.
  assert (vs <> []) as Hne by (intros ->; destruct i; discriminate Hv).
  pose proof (Qbounds_order vs Hne) as Hord.
  do 2 eexists.
  split; [apply map_nth_error; exact Hv|].
  split; [apply map_nth_error; exact Hw|].
  split; [apply Qclip_mono, Hord|].
  split; [apply Qclip_below, Hord|apply Qclip_above, Hord].
Qed.

(** *** Step 2: missing numbers are filled with the median *)

(** [col.median()]: missing values are skipped; the middle value of the
    sorted rest, or the mean of the two middle values; NaN on a column
    without values. *)
Definition median (col : series) : pyfloat :=
  let values := sort_by fleb (dropna col) in
  let n := List.length values in
  if (n =? 0)%nat then NaN
  else if Nat.odd n then nth (n / 2) values NaN
  else fdiv (fadd (nth (n / 2 - 1) values NaN) (nth (n / 2) values NaN))
            (Fin 2).

(** The body of the loop over the numeric columns:
    [if df[col].isnull().sum() > 0: df[col] = df[col].fillna(median)]. *)
Definition fill_median (col : series) : series :=
  if (0 <? List.length (filter isna col))%nat
  then
    let median_value := median col in
    map (fun x => if isna x then median_value else x) col
  else col.

Lemma sorted_member (qs : list Q) (i : nat) :
  (i < List.length qs)%nat -> In (nth i (sort_by Qle_bool qs) 0) qs.
Proof.
  intro Hi. eapply Permutation_in; [apply sort_by_perm|].
  apply nth_In. rewrite length_sort_by. exact Hi.
Qed.

(** The median of a column whose present cells are numbers lies between two
    of them. *)
Lemma median_between (col : series) :
  Forall (fun x => isinf x = false) col -> observed col <> [] ->
  exists m lo hi,
    median col = Fin m /\ In lo (observed col) /\ In hi (observed col) /\
    lo <= m /\ m <= hi.
Proof.
  intros Hfin Hne. unfold median.
  rewrite (CampaignInvariants.dropna_observed col Hfin), sort_by_fin.
  set (qs := observed col) in *.
  rewrite length_map, length_sort_by.
  assert (1 <= List.length qs)%nat as Hn
    by (destruct qs; [contradiction|simpl; lia]).
  assert ((List.length qs =? 0)%nat = false) as -> by (apply Nat.eqb_neq; lia).
  pose proof (sort_by_sorted qs) as Hs.
  pose proof (length_sort_by Qle_bool qs) as Hlen.
  assert (List.length qs / 2 < List.length qs)%nat as Hmid
    by (apply Nat.div_lt; lia).
  exists (if Nat.odd (List.length qs)
          then nth (List.length qs / 2) (sort_by Qle_bool qs) 0
          else (nth (List.length qs / 2 - 1) (sort_by Qle_bool qs) 0
                + nth (List.length qs / 2) (sort_by Qle_bool qs) 0) / 2),
    (nth 0 (sort_by Qle_bool qs) 0),
    (nth (List.length qs - 1) (sort_by Qle_bool qs) 0).
  split; [|split; [|split]].
  - destruct (Nat.odd (List.length qs)).
    + apply nth_fin. lia.
    + rewrite !nth_fin by lia. reflexivity.
  - apply sorted_member. lia.
  - apply sorted_member. lia.
  - assert (forall i j, (i <= j)%nat -> (j < List.length qs)%nat ->
              nth i (sort_by Qle_bool qs) 0 <= nth j (sort_by Qle_bool qs) 0)
      as Hord by (intros i j Hij Hj; apply sorted_nth; [exact Hs|lia|lia]).
    destruct (Nat.odd (List.length qs)).
    + split; apply Hord; lia.
    + pose proof (Hord 0%nat (List.length qs / 2 - 1)%nat) as H1.
      pose proof (Hord (List.length qs / 2 - 1)%nat (List.length qs / 2)%nat)
        as H2.
      pose proof (Hord (List.length qs / 2)%nat (List.length qs - 1)%nat)
        as H3.
      assert (List.length qs / 2 - 1 < List.length qs)%nat by lia.
      specialize (H1 ltac:(lia) ltac:(lia)).
      specialize (H2 ltac:(lia) ltac:(lia)).
      specialize (H3 ltac:(lia) ltac:(lia)).
      set (a := nth 0 (sort_by Qle_bool qs) 0) in *.
      set (b := nth (List.length qs / 2 - 1) (sort_by Qle_bool qs) 0) in *.
      set (c := nth (List.length qs / 2) (sort_by Qle_bool qs) 0) in *.
      set (d := nth (List.length qs - 1) (sort_by Qle_bool qs) 0) in *.
      split.
      * apply Qle_shift_div_l; [reflexivity|]. lra.
      * apply Qle_shift_div_r; [reflexivity|]. lra.
Qed.

Lemma observed_nil_median (col : series) :
  Forall (fun x => isinf x = false) col -> observed col = [] ->
  median col = NaN.
Proof.
  intros Hfin Hnil. unfold median.
  rewrite (CampaignInvariants.dropna_observed col Hfin), Hnil. reflexivity.
Qed.

(** Median imputation: the column keeps its length and its present cells;
    when at least one cell is present, every missing cell receives the
    median, a number between two present cells, and no cell is missing
    afterwards; a column without any present cell stays as it is. *)
Theorem fill_median_spec (col : series) :
  Forall (fun x => isinf x = false) col ->
  List.length (fill_median col) = List.length col /\
  (forall i x, nth_error col i = Some x -> isna x = false ->
     nth_error (fill_median col) i = Some x) /\
  (observed col = [] -> fill_median col = col) /\
  (observed col <> [] ->
   exists m lo hi,
     median col = Fin m /\ In lo (observed col) /\ In hi (observed col) /\
     lo <= m /\ m <= hi /\
     (forall i, nth_error col i = Some NaN ->
        nth_error (fill_median col) i = Some (Fin m)) /\
     Forall (fun x => isna x = false) (fill_median col)).
Proof.
  intro Hfin. unfold fill_median.
  destruct (0 <? List.length (filter isna col))%nat eqn:Ena.
  - split; [apply length_map|]. split; [|split].
    + intros i x Hx Hdef. rewrite (map_nth_error _ _ _ Hx), Hdef.
      reflexivity.
    + intro Hnil. rewrite (observed_nil_median col Hfin Hnil).
      rewrite <- (map_id col) at 2. apply map_ext.
      intros [q| | |]; reflexivity.
    + intro Hne.
      destruct (median_between col Hfin Hne)
        as (m & lo & hi & Hm & Hlo & Hhi & H1 & H2).
      exists m, lo, hi. rewrite Hm.
      split; [reflexivity|].
      repeat (split; [assumption|]). split.
      * intros i Hi. rewrite (map_nth_error _ _ _ Hi). reflexivity.
      * apply Forall_map, Forall_forall. intros x _.
        destruct (isna x) eqn:E; [reflexivity|exact E].
  - apply Nat.ltb_ge in Ena.
    assert (List.length (filter isna col) = 0)%nat as Hz by lia.
    apply filter_length_zero in Hz.
    split; [reflexivity|]. split; [auto|]. split; [auto|].
    intro Hne.
    destruct (median_between col Hfin Hne)
      as (m & lo & hi & Hm & Hlo & Hhi & H1 & H2).
    exists m, lo, hi.
    repeat (split; [assumption|]). split; [|exact Hz].
    intros i Hi. rewrite Forall_forall in Hz.
    specialize (Hz NaN (nth_error_In col i Hi)). discriminate Hz.
Qed.

(** A quantity column with two missing cells. *)
Definition quantities_with_gaps : series :=
  [Fin 4; NaN; Fin 1; Fin 9; NaN; Fin 2].

Lemma fill_median_spec_witness :
  List.length (fill_median quantities_with_gaps) =
    List.length quantities_with_gaps /\
  (forall i x, nth_error quantities_with_gaps i = Some x -> isna x = false ->
     nth_error (fill_median quantities_with_gaps) i = Some x) /\
  (observed quantities_with_gaps = [] ->
   fill_median quantities_with_gaps = quantities_with_gaps) /\
  (observed quantities_with_gaps <> [] ->
   exists m lo hi,
     median quantities_with_gaps = Fin m /\
     In lo (observed quantities_with_gaps) /\
     In hi (observed quantities_with_gaps) /\
     lo <= m /\ m <= hi /\
     (forall i, nth_error quantities_with_gaps i = Some NaN ->
        nth_error (fill_median quantities_with_gaps) i = Some (Fin m)) /\
     Forall (fun x => isna x = false) (fill_median quantities_with_gaps)).
Proof.
  apply (fill_median_spec quantities_with_gaps).
  repeat constructor.
Defined.

Example fill_median_example :
  Forall2 feq (fill_median quantities_with_gaps)
              [Fin 4; Fin 3; Fin 1; Fin 9; Fin 3; Fin 2].
Proof. vm_compute. repeat constructor. Qed.

(** *** Step 4: duplicate rows are removed *)

Section DropDuplicates.
Context {A : Type} (row_eq_dec : forall x y : A, {x = y} + {x <> y}).

(** [df.duplicated()]: a row is marked when an equal row comes before
    it; [seen] holds the rows met so far. *)
Fixpoint duplicated_after (seen : list A) (df : list A) : list bool :=
  match df with
  | [] => []
  | r :: rest =>
      (if in_dec row_eq_dec r seen then true else false)
        :: duplicated_after (r :: seen) rest
  end.

Definition duplicated (df : list A) : list bool := duplicated_after [] df.

(** [df.drop_duplicates()]: the rows that are not marked. *)
Definition drop_duplicates (df : list A) : list A :=
  map fst (filter (fun rb => negb (snd rb)) (combine df (duplicated df))).

Definition count_true (flags : list bool) : nat :=
  List.length (filter (fun b => b) flags).

(** Step 4: [duplicates = df.duplicated().sum()], and the rows are dropped
    when there is one. *)
Definition remove_duplicates (df : list A) : list A :=
  let duplicates := count_true (duplicated df) in
  if (0 <? duplicates)%nat then drop_duplicates df else df.

(** The rows kept, met one by one. *)
Fixpoint keep_new (seen : list A) (df : list A) : list A :=
  match df with
  | [] => []
  | r :: rest =>
      if in_dec row_eq_dec r seen then keep_new (r :: seen) rest
      else r :: keep_new (r :: seen) rest
  end.

Lemma drop_duplicates_keep_new (seen df : list A) :
  map fst (filter (fun rb => negb (snd rb))
                  (combine df (duplicated_after seen df)))
    = keep_new seen df.
Proof.
  revert seen. induction df as [|r df IH]; intro seen; simpl;
    [reflexivity|].
  destruct (in_dec row_eq_dec r seen); simpl; rewrite IH; reflexivity.
Qed.

Lemma keep_new_In (seen df : list A) (x : A) :
  In x (keep_new seen df) <-> In x df /\ ~ In x seen.
Proof.
  revert seen. induction df as [|r df IH]; intro seen; simpl.
  - tauto.
  - destruct (in_dec row_eq_dec r seen) as [Hin|Hnin]; simpl;
      rewrite IH; simpl; split.
    + intros [Hx Hn]. split; [right; exact Hx|tauto].
    + intros [[->|Hx] Hn]; [contradiction|].
      split; [exact Hx|]. intros [->|H]; contradiction.
    + intros [->|[Hx Hn]]; [tauto|]. split; [right; exact Hx|tauto].
    + intros [[->|Hx] Hn]; [left; reflexivity|].
      destruct (row_eq_dec r x) as [->|Hne]; [left; reflexivity|].
      right. split; [exact Hx|]. intros [E|H]; [congruence|contradiction].
Qed.

Lemma keep_new_NoDup (seen df : list A) : NoDup (keep_new seen df).
Proof.
  revert seen. induction df as [|r df IH]; intro seen; simpl.
  - constructor.
  - destruct (in_dec row_eq_dec r seen); [apply IH|].
    constructor; [|apply IH].
    rewrite keep_new_In. intros [_ H]. apply H. left. reflexivity.
Qed.

Lemma keep_new_length (seen df : list A) :
  (List.length (keep_new seen df)
   + count_true (duplicated_after seen df))%nat = List.length df.
Proof.
  revert seen. induction df as [|r df IH]; intro seen; [reflexivity|].
  specialize (IH (r :: seen)). unfold count_true in *. simpl.
  destruct (in_dec row_eq_dec r seen); simpl; lia.
Qed.

Lemma keep_new_all (seen df : list A) :
  count_true (duplicated_after seen df) = 0%nat -> keep_new seen df = df.
Proof.
  revert seen. induction df as [|r df IH]; intro seen; [reflexivity|].
  unfold count_true in *. simpl.
  destruct (in_dec row_eq_dec r seen); simpl; intro H;
    [discriminate H|].
  rewrite IH by exact H. reflexivity.
Qed.

Lemma no_duplicates_counted (seen df : list A) :
  NoDup df -> (forall x, In x df -> ~ In x seen) ->
  count_true (duplicated_after seen df) = 0%nat.
Proof.
  intro Hnd. revert seen.
  induction Hnd as [|r df Hnin Hnd IH]; intros seen Hseen;
    [reflexivity|].
  unfold count_true in *. simpl.
  destruct (in_dec row_eq_dec r seen) as [Hin|_].
  - exfalso. apply (Hseen r); [left; reflexivity|exact Hin].
  - simpl. apply IH. intros x Hx [E|Hs].
    + subst x. contradiction.
    + apply (Hseen x); [right; exact Hx|exact Hs].
Qed.

(** Removing duplicates leaves no two equal rows, keeps every distinct
    row of the table, removes exactly as many rows as were counted as
    duplicates, leaves a table without duplicates as it is, and changes
    nothing when run again. *)
Theorem remove_duplicates_spec (df : list A) :
  NoDup (remove_duplicates df) /\
  (forall r, In r (remove_duplicates df) <-> In r df) /\
  (List.length (remove_duplicates df) + count_true (duplicated df))%nat
    = List.length df /\
  (NoDup df -> remove_duplicates df = df) /\
  remove_duplicates (remove_duplicates df) = remove_duplicates df.
Proof.
  assert (remove_duplicates df = keep_new [] df) as E.
  { unfold remove_duplicates, drop_duplicates, duplicated.
    rewrite drop_duplicates_keep_new.
    destruct (0 <? count_true (duplicated_after [] df))%nat eqn:Ec;
      [reflexivity|].
    apply Nat.ltb_ge in Ec. symmetry. apply keep_new_all. lia. }
  assert (forall l, NoDup l -> remove_duplicates l = l) as Hid.
  { intros l Hl. unfold remove_duplicates, duplicated.
    rewrite (no_duplicates_counted [] l Hl) by (intros x _ []).
    reflexivity. }
  split; [rewrite E; apply keep_new_NoDup|].
  split; [intro r; rewrite E, keep_new_In; simpl; tauto|].
  split; [rewrite E; apply keep_new_length|].
  split; [apply Hid|].
  apply Hid. rewrite E. apply keep_new_NoDup.
Qed.
End DropDuplicates.

Example remove_duplicates_example :
  remove_duplicates Z.eq_dec [3; 1; 3; 2; 1; 3]%Z = [3; 1; 2]%Z.
Proof. reflexivity. Qed.

End Cleaning.

(** ** Shipping reports: [shipping_interval_analysis] and the shipping part
    of [calculate_key_metrics] *)

Module ShippingReport.
Import Shipping.
Local Open Scope string_scope.

Definition of_nat (n : nat) : pyfloat := of_Z (Z.of_nat n).

Definition has_label (l : string) (cell : option string) : bool :=
  match cell with
  | Some l' => String.eqb l' l
  | None => false
  end.

Definition count_label (l : string) (col : list (option string)) : nat :=
  List.length (filter (has_label l) col).

(** [col.value_counts().sort_index()] on the categorical column: one count
    per category, in the order of the categories, missing cells left out. *)
Definition value_counts (col : list (option string)) : list (string * nat) :=
  map (fun l => (l, count_label l col)) shipping_labels.

(** A row of the table [shipping_interval_analysis] returns. *)
Record interval_row : Type := {
  interval : string;
  Count : nat;
  Percentage : pyfloat
}.

(** [shipping_interval_analysis], its plot left out; [None] when the table
    has no [shipping_interval] column. *)
Definition shipping_interval_analysis (column : option (list (option string)))
  : option (list interval_row) :=
  match column with
  | None => None
  | Some col =>
      let interval_counts := value_counts col in
      let total := list_sum (map snd interval_counts) in
      Some (map (fun lc =>
                   {| interval := fst lc;
                      Count := snd lc;
                      Percentage :=
                        fround1 (fmul (fdiv (of_nat (snd lc)) (of_nat total))
                                      (Fin 100)) |})
                interval_counts)
  end.

(** The shipping entries of the dictionary of [calculate_key_metrics]. *)
Record shipping_metrics : Type := {
  avg_shipping_days : pyfloat;
  pct_shipped_within_7_days : pyfloat;
  pct_shipped_within_30_days : pyfloat;
  pct_shipped_after_30_days : pyfloat
}.

(** [col.value_counts(normalize=True) * 100] read at one label. *)
Definition normalized_share (l : string) (col : list (option string))
  : pyfloat :=
  let total := list_sum (map snd (value_counts col)) in
  fmul (fdiv (of_nat (count_label l col)) (of_nat total)) (Fin 100).

(** [col.mean()]: the mean of the cells that are not missing. *)
Definition series_mean (col : series) : pyfloat :=
  fdiv (Campaign.fsum (dropna col)) (of_nat (List.length (dropna col))).

(** The part of [calculate_key_metrics] under
    [if 'shipping_days' in self.data.columns], on the two columns that
    [_prepare_data] added. *)
Definition calculate_shipping_metrics
    (prepared : list (order * pyfloat * option string)) : shipping_metrics :=
  let days := map (fun row => snd (fst row)) prepared in
  let intervals := map snd prepared in
  {| avg_shipping_days := series_mean days;
     pct_shipped_within_7_days := normalized_share "Within 7 days" intervals;
     pct_shipped_within_30_days := normalized_share "Within 30 days" intervals;
     pct_shipped_after_30_days := normalized_share "After 30 days" intervals |}.

(** An order with both dates whose ship date is after its order date. *)
Definition shipped_later (r : order) : bool :=
  match ship_date r, order_date r with
  | Some s, Some o => (0 <? s - o)%Z
  | _, _ => false
  end.

(** *** Facts *)

Definition is_labelled (cell : option string) : bool :=
  match cell with Some _ => true | None => false end.

Lemma Qltb_inject_Z (z : Z) : Qltb 0 (inject_Z z) = (0 <? z)%Z.
Proof.
  destruct (0 <? z)%Z eqn:E.
  - apply Qltb_lt. apply Z.ltb_lt in E.
    change 0 with (inject_Z 0). rewrite <- Zlt_Qlt. exact E.
  - apply Qltb_ge. apply Z.ltb_ge in E.
    change 0 with (inject_Z 0). rewrite <- Zle_Qle. exact E.
Qed.

Lemma shipping_interval_labelled (r : order) :
  is_labelled (shipping_interval (shipping_days r)) = shipped_later r.
Proof.
  unfold shipping_days, shipped_later.
  destruct (ship_date r) as [s|], (order_date r) as [o|]; try reflexivity.
  unfold of_Z. rewrite shipping_interval_fin, Qltb_inject_Z.
  destruct (0 <? s - o)%Z; [|reflexivity].
  destruct (Qltb 7 _); [destruct (Qltb 30 _)|]; reflexivity.
Qed.

Lemma shipping_interval_in_labels (x : pyfloat) (l : string) :
  shipping_interval x = Some l -> In l shipping_labels.
Proof.
  unfold shipping_interval, cut. intro H.
  destruct (isna x || _ || _); [discriminate H|].
  eapply nth_error_In. exact H.
Qed.

(** The three counts of a column whose labels are the three categories add
    up to the number of labelled cells. *)
Lemma counts_add_up (col : list (option string)) :
  (forall l, In (Some l) col -> In l shipping_labels) ->
  list_sum (map snd (value_counts col)) = List.length (filter is_labelled col).
Proof.
  unfold value_counts, shipping_labels, count_label. cbn [map snd list_sum].
  induction col as [|cell col IH]; intro Hl; [reflexivity|].
  assert (forall l, In (Some l) col -> In l shipping_labels) as Hl'
    by (intros l H; apply Hl; right; exact H).
  specialize (IH Hl').
  destruct cell as [l|].
  - specialize (Hl l (or_introl eq_refl)).
    destruct Hl as [<-|[<-|[<-|[]]]]; cbn in *; lia.
  - cbn in *. lia.
Qed.

Lemma prepared_labels (data : list order) (l : string) :
  In (Some l) (map snd (_prepare_data data)) -> In l shipping_labels.
Proof.
  unfold _prepare_data. rewrite map_map. cbn [snd].
  intro H. apply in_map_iff in H. destruct H as (r & Hr & _).
  eapply shipping_interval_in_labels. exact Hr.
Qed.

Lemma prepared_labelled (data : list order) :
  List.length (filter is_labelled (map snd (_prepare_data data))) =
    List.length (filter shipped_later data).
Proof.
  unfold _prepare_data. rewrite map_map. cbn [snd].
  induction data as [|r data IH]; [reflexivity|].
  cbn [map filter]. rewrite shipping_interval_labelled.
  destruct (shipped_later r); simpl; rewrite IH; reflexivity.
Qed.

(** The interval table counts only orders shipped at least one day after
    they were placed: it has one row per bucket, in the order of the
    buckets, and its counts add up to the number of such orders; an order
    shipped on its order day or earlier, or lacking a date, is counted in
    no bucket. *)
Theorem interval_counts_cover_later_shipments (data : list order) :
  exists result,
    shipping_interval_analysis (Some (map snd (_prepare_data data)))
      = Some result /\
    map interval result = shipping_labels /\
    list_sum (map Count result) = List.length (filter shipped_later data).
Proof.
  eexists. split; [reflexivity|]. split; [reflexivity|].
  rewrite map_map. cbn [Count].
  rewrite <- (map_map snd (fun n => n)), map_id.
  rewrite counts_add_up by apply prepared_labels.
  apply prepared_labelled.
Qed.

Lemma total_is_three_counts (col : list (option string)) :
  list_sum (map snd (value_counts col)) =
    (count_label "Within 7 days" col + count_label "Within 30 days" col
     + count_label "After 30 days" col)%nat.
Proof. unfold value_counts, shipping_labels. cbn. lia. Qed.

Lemma share_of_none (c : nat) : c = 0%nat ->
  fmul (fdiv (of_nat c) (of_nat 0)) (Fin 100) = NaN.
Proof. intros ->. reflexivity. Qed.

Lemma share_of_some (c n : nat) : (0 < n)%nat ->
  fmul (fdiv (of_nat c) (of_nat n)) (Fin 100) =
    Fin (inject_Z (Z.of_nat c) / inject_Z (Z.of_nat n) * 100).
Proof.
  intro Hn. unfold of_nat, of_Z. cbn [fdiv].
  pose proof (inject_nat_pos n Hn) as Hpos.
  rewrite Qeq_bool_false by lra. reflexivity.
Qed.

(** The three shipping percentages of the key metrics are shares among the
    orders shipped at least one day after they were placed, not among all
    orders: with [n > 0] such orders each percentage is its bucket's count
    over [n], times 100, and the three add up to 100; with no such order
    all three are NaN. *)
Theorem shipping_shares (data : list order) :
  let m := calculate_shipping_metrics (_prepare_data data) in
  let col := map snd (_prepare_data data) in
  let n := List.length (filter shipped_later data) in
  let share c := inject_Z (Z.of_nat c) / inject_Z (Z.of_nat n) * 100 in
  (n = 0%nat ->
   pct_shipped_within_7_days m = NaN /\
   pct_shipped_within_30_days m = NaN /\
   pct_shipped_after_30_days m = NaN) /\
  ((0 < n)%nat ->
   pct_shipped_within_7_days m
     = Fin (share (count_label "Within 7 days" col)) /\
   pct_shipped_within_30_days m
     = Fin (share (count_label "Within 30 days" col)) /\
   pct_shipped_after_30_days m
     = Fin (share (count_label "After 30 days" col)) /\
   share (count_label "Within 7 days" col)
   + share (count_label "Within 30 days" col)
   + share (count_label "After 30 days" col) == 100).
Proof.
  intros m col n share.
  assert (list_sum (map snd (value_counts col)) = n) as Htotal.
  { unfold col, n. rewrite counts_add_up by apply prepared_labels.
    apply prepared_labelled. }
  pose proof (total_is_three_counts col) as H3. rewrite Htotal in H3.
  unfold m, calculate_shipping_metrics.
  cbn [pct_shipped_within_7_days pct_shipped_within_30_days
       pct_shipped_after_30_days].
  fold col. unfold normalized_share. rewrite Htotal.
  split.
  - intro Hz. rewrite Hz in *.
    repeat split; apply share_of_none; lia.
  - intro Hn. rewrite !share_of_some by exact Hn.
    repeat (split; [reflexivity|]).
    unfold share. pose proof (inject_nat_pos n Hn) as Hpos.
    assert (inject_Z (Z.of_nat n) ==
            inject_Z (Z.of_nat (count_label "Within 7 days" col))
            + inject_Z (Z.of_nat (count_label "Within 30 days" col))
            + inject_Z (Z.of_nat (count_label "After 30 days" col))) as Hs.
    { rewrite <- !inject_Z_plus, <- !Nat2Z.inj_add, <- H3. reflexivity. }
    set (a := inject_Z (Z.of_nat (count_label "Within 7 days" col))) in *.
    set (b := inject_Z (Z.of_nat (count_label "Within 30 days" col))) in *.
    set (c := inject_Z (Z.of_nat (count_label "After 30 days" col))) in *.
    set (t := inject_Z (Z.of_nat n)) in *.
    assert ((a + b + c) / t == 1) as H1 by (rewrite <- Hs; field; lra).
    assert (a / t * 100 + b / t * 100 + c / t * 100
            == (a + b + c) / t * 100) as -> by (field; lra).
    rewrite H1. reflexivity.
Qed.

(** The buckets follow the order of the durations: of two positive
    durations the longer one never falls in an earlier bucket. *)
Theorem shipping_interval_monotone (q1 q2 : Q) :
  0 < q1 -> q1 <= q2 ->
  exists i j : nat,
    nth_error shipping_labels i = shipping_interval (Fin q1) /\
    nth_error shipping_labels j = shipping_interval (Fin q2) /\
    (i <= j < 3)%nat.
Proof.
  intros H1 H12. rewrite !shipping_interval_fin.
  assert (Qltb 0 q1 = true) as -> by (apply Qltb_lt; exact H1).
  assert (Qltb 0 q2 = true) as -> by (apply Qltb_lt; lra).
  destruct (Qltb 7 q1) eqn:A1; destruct (Qltb 30 q1) eqn:B1;
    destruct (Qltb 7 q2) eqn:A2; destruct (Qltb 30 q2) eqn:B2;
    try apply Qltb_lt in A1; try apply Qltb_ge in A1;
    try apply Qltb_lt in B1; try apply Qltb_ge in B1;
    try apply Qltb_lt in A2; try apply Qltb_ge in A2;
    try apply Qltb_lt in B2; try apply Qltb_ge in B2;
    try (exfalso; lra);
    first [ exists 0%nat, 0%nat; repeat split; (reflexivity || lia)
          | exists 0%nat, 1%nat; repeat split; (reflexivity || lia)
          | exists 0%nat, 2%nat; repeat split; (reflexivity || lia)
          | exists 1%nat, 1%nat; repeat split; (reflexivity || lia)
          | exists 1%nat, 2%nat; repeat split; (reflexivity || lia)
          | exists 2%nat, 2%nat; repeat split; (reflexivity || lia) ].
Qed.

Lemma shipping_interval_monotone_witness :
  exists i j : nat,
    nth_error shipping_labels i = shipping_interval (Fin 7) /\
    nth_error shipping_labels j = shipping_interval (Fin (15 # 2)) /\
    (i <= j < 3)%nat.
Proof.
  apply (shipping_interval_monotone 7 (15 # 2)); lra.
Defined.

(** Four orders: same day, 3 days, 10 days, 45 days. *)
Definition four_orders : list order :=
  [ {| order_date := Some 5; ship_date := Some 5 |};
    {| order_date := Some 5; ship_date := Some 8 |};
    {| order_date := Some 5; ship_date := Some 15 |};
    {| order_date := Some 5; ship_date := Some 50 |} ]%Z.

(** The same-day order is in no bucket, and each later one counts for a
    third although it is a quarter of the orders. *)
Example four_orders_shares :
  feq (pct_shipped_within_7_days
         (calculate_shipping_metrics (_prepare_data four_orders)))
      (Fin (100 # 3)).
Proof. vm_compute. reflexivity. Qed.

End ShippingReport.

(** ** The performance panel: [update_performance_metrics] *)

Module Performance.
Import Stock.
Local Open Scope string_scope.

(** [s.cumprod()] on a column without missing cells: the running product. *)
Fixpoint cumprod_from (acc : pyfloat) (s : series) : series :=
  match s with
  | [] => []
  | x :: xs => fmul acc x :: cumprod_from (fmul acc x) xs
  end.

Definition cumprod (s : series) : series := cumprod_from (Fin 1) s.

(** [s.cummax()]: the running maximum; a missing cell is skipped and stays
    missing. *)
Fixpoint cummax_from (best : option pyfloat) (s : series) : series :=
  match s with
  | [] => []
  | x :: xs =>
      if isna x then NaN :: cummax_from best xs
      else
        let m := match best with
                 | None => x
                 | Some b => if flt b x then x else b
                 end in
        m :: cummax_from (Some m) xs
  end.

Definition cummax (s : series) : series := cummax_from None s.

(** [s.min()]: the least cell that is not missing; NaN when there is none. *)
Definition series_min (s : series) : pyfloat :=
  match dropna s with
  | [] => NaN
  | x :: xs => fold_left (fun m y => if flt y m then y else m) xs x
  end.

(** [(1 + daily_returns.dropna() / 100).cumprod()]. *)
Definition cumulative_returns (daily_return : series) : series :=
  cumprod (map (fun r => fadd (Fin 1) (fdiv r (Fin 100))) (dropna daily_return)).

(** [((cumulative_returns / running_max) - 1) * 100], then its minimum. *)
Definition max_drawdown (daily_return : series) : pyfloat :=
  let cumulative := cumulative_returns daily_return in
  let running_max := cummax cumulative in
  let drawdown :=
    map2 (fun c m => fmul (fsub (fdiv c m) (Fin 1)) (Fin 100))
         cumulative running_max in
  series_min drawdown.








(** *** Which tickers the panel shows *)







(** *** The maximum drawdown *)

(** A daily return that is a number above -100, or a missing one. *)
Definition loses_less_than_all (x : pyfloat) : Prop :=
  match x with
  | Fin r => -100 < r
  | NaN => True
  | _ => False
  end.

Definition drawdown_cell (c m : pyfloat) : pyfloat :=
  fmul (fsub (fdiv c m) (Fin 1)) (Fin 100).

Definition in_drawdown_range (x : pyfloat) : Prop :=
  exists d, x = Fin d /\ -100 < d /\ d <= 0.

Lemma drawdown_cell_range (c m : Q) :
  0 < c -> c <= m -> in_drawdown_range (drawdown_cell (Fin c) (Fin m)).
Proof.
  intros Hc Hm. unfold drawdown_cell, in_drawdown_range. cbn [fdiv].
  rewrite Qeq_bool_false by lra.
  eexists. split; [reflexivity|].
  assert (0 < m) as Hmpos by lra.
  assert (c / m <= 1) as H1 by (apply Qle_shift_div_r; [exact Hmpos|lra]).
  assert (0 < c / m) as H0.
  { unfold Qdiv. apply Qmult_lt_0_compat; [exact Hc|].
    apply Qinv_lt_0_compat. exact Hmpos. }
  split; lra.
Qed.

(** Every drawdown cell of a run of positive growth factors lies in
    (-100, 0], whatever positive product and positive maximum the run
    starts from. *)
Lemma drawdown_cells_range (gs : list Q) (acc : Q) (best : option Q) :
  0 < acc ->
  match best with Some b => 0 < b | None => True end ->
  Forall (fun g => 0 < g) gs ->
  Forall in_drawdown_range
    (map2 drawdown_cell
       (cumprod_from (Fin acc) (map Fin gs))
       (cummax_from (option_map Fin best)
                    (cumprod_from (Fin acc) (map Fin gs)))).
Proof.
  intros Hacc Hbest Hgs. revert acc best Hacc Hbest.
  induction Hgs as [|g gs Hg _ IH]; intros acc best Hacc Hbest;
    [constructor|].
  cbn [map cumprod_from fmul cummax_from isna].
  assert (0 < acc * g) as Hpos by (apply Qmult_lt_0_compat; assumption).
  destruct best as [b|]; cbn [option_map flt].
  - destruct (Qltb b (acc * g)) eqn:E; cbn [map2]; constructor.
    + apply drawdown_cell_range; [exact Hpos|apply Qle_refl].
    + apply (IH (acc * g) (Some (acc * g))); assumption.
    + apply Qltb_ge in E. apply drawdown_cell_range; assumption.
    + apply (IH (acc * g) (Some b)); assumption.
  - cbn [map2]. constructor.
    + apply drawdown_cell_range; [exact Hpos|apply Qle_refl].
    + apply (IH (acc * g) (Some (acc * g))); assumption.
Qed.

Lemma fold_min_In (xs : series) (x : pyfloat) :
  In (fold_left (fun m y => if flt y m then y else m) xs x) (x :: xs).
Proof.
  revert x. induction xs as [|y xs IH]; intro x; [left; reflexivity|].
  cbn [fold_left]. destruct (flt y x).
  - right. apply IH.
  - destruct (IH x) as [H|H]; [left; exact H|right; right; exact H].
Qed.

(** On a non-empty column without missing cells the minimum is one of the
    cells. *)
Lemma series_min_In (s : series) :
  s <> [] -> Forall (fun x => isna x = false) s -> In (series_min s) s.
Proof.
  intros Hne Hs. unfold series_min, dropna.
  rewrite filter_all
    by (eapply Forall_impl; [|exact Hs]; intros x Hx; cbn; rewrite Hx;
        reflexivity).
  destruct s as [|x xs]; [contradiction|]. apply fold_min_In.
Qed.

Lemma growth_factors (dr : series) :
  Forall loses_less_than_all dr ->
  exists gs,
    map (fun r => fadd (Fin 1) (fdiv r (Fin 100))) (dropna dr) = map Fin gs /\
    Forall (fun g => 0 < g) gs /\
    List.length gs = List.length (observed dr).
Proof.
  induction 1 as [|x dr Hx _ (gs & E & Hgs & Hlen)].
  - exists []. repeat split. constructor.
  - destruct x as [r| | |]; cbn in Hx; try contradiction.
    + exists ((1 + r / 100) :: gs). split; [|split].
      * unfold dropna in *. cbn [filter isna negb map]. rewrite E.
        reflexivity.
      * constructor; [|exact Hgs].
        assert (-1 < r / 100)
          by (apply Qlt_shift_div_l; [reflexivity|lra]).
        lra.
      * unfold observed in *. cbn. rewrite Hlen. reflexivity.
    + exists gs. split; [exact E|]. split; [exact Hgs|exact Hlen].
Qed.

(** The maximum drawdown is a loss between 0 and 100 percent: when every
    daily return present is a number above -100 and at least one is
    present, the maximum drawdown is a number in (-100, 0]. *)
Theorem max_drawdown_range (dr : series) :
  Forall loses_less_than_all dr -> observed dr <> [] ->
  exists d, max_drawdown dr = Fin d /\ -100 < d /\ d <= 0.
Proof.
  intros Hdr Hne.
  destruct (growth_factors dr Hdr) as (gs & E & Hgs & Hlen).
  unfold max_drawdown, cumulative_returns, cumprod, cummax. rewrite E.
  pose proof (drawdown_cells_range gs 1 None ltac:(reflexivity) I Hgs)
    as Hcells.
  cbn [option_map] in Hcells. fold drawdown_cell.
  set (cells := map2 drawdown_cell _ _) in *.
  assert (cells <> []) as Hcne.
  { unfold cells. destruct gs as [|g gs'].
    - destruct (observed dr); [contradiction|discriminate Hlen].
    - cbn. discriminate. }
  assert (In (series_min cells) cells) as Hin.
  { apply series_min_In; [exact Hcne|].
    eapply Forall_impl; [|exact Hcells].
    intros x (d & -> & _). reflexivity. }
  rewrite Forall_forall in Hcells. exact (Hcells _ Hin).
Qed.

Lemma max_drawdown_range_witness :
  exists d,
    max_drawdown [NaN; Fin 10; Fin (-10); Fin 21] = Fin d /\
    -100 < d /\ d <= 0.
Proof.
  apply (max_drawdown_range [NaN; Fin 10; Fin (-10); Fin 21]).
  - repeat constructor.
  - discriminate.
Defined.

(** *** The cumulative return *)

Import StockFacts.

(** The daily return of row [t >= 1], in percent. *)
Definition qreturn (vs : list Q) (t : nat) : Q :=
  match t with
  | O => 0
  | S p => (value_at vs (S p) / value_at vs p - 1) * 100
  end.

Definition Qgrowth (vs : list Q) (t : nat) : Q := 1 + qreturn vs t / 100.

Fixpoint Qcumprod_from (acc : Q) (gs : list Q) : list Q :=
  match gs with
  | [] => []
  | g :: gs' => acc * g :: Qcumprod_from (acc * g) gs'
  end.

Lemma nonzero_at (vs : list Q) (t : nat) :
  Forall (fun v => ~ v == 0) vs -> (t < List.length vs)%nat ->
  ~ value_at vs t == 0.
Proof.
  intros H Ht. rewrite Forall_forall in H. apply H.
  unfold value_at. apply nth_In. exact Ht.
Qed.

Lemma daily_return_cell (vs : list Q) (t : nat) :
  Forall (fun v => ~ v == 0) vs -> (S t < List.length vs)%nat ->
  nth_error (Daily_Return_col (map Fin vs)) (S t)
    = Some (Fin (qreturn vs (S t))).
Proof.
  intros Hnz Ht. rewrite nth_error_Daily_Return_fin by exact Ht.
  cbn [fdiv]. rewrite Qeq_bool_false by (apply nonzero_at; [exact Hnz|lia]).
  reflexivity.
Qed.

(** A block of rows of the daily returns that starts after the first row:
    all its cells are numbers. *)
Lemma returns_block (vs : list Q) (i len : nat) :
  Forall (fun v => ~ v == 0) vs -> (1 <= i)%nat ->
  firstn len (skipn i (Daily_Return_col (map Fin vs))) =
    map Fin (map (qreturn vs)
                 (seq i (Nat.min len (List.length vs - i)))).
Proof.
  intros Hnz Hi. apply nth_error_ext. intro j.
  rewrite nth_error_firstn, nth_error_skipn, !nth_error_map, nth_error_seq.
  destruct (j <? len)%nat eqn:Ej.
  - apply Nat.ltb_lt in Ej.
    destruct (Nat.lt_ge_cases (i + j) (List.length vs)) as [Hin|Hout].
    + assert ((j <? Nat.min len (List.length vs - i))%nat = true) as ->
        by (apply Nat.ltb_lt; lia).
      destruct (i + j)%nat as [|t] eqn:Et; [lia|].
      rewrite daily_return_cell by (exact Hnz || lia). reflexivity.
    + assert ((j <? Nat.min len (List.length vs - i))%nat = false) as ->
        by (apply Nat.ltb_ge; lia).
      apply nth_error_None.
      rewrite length_Daily_Return_col, length_map. exact Hout.
  - apply Nat.ltb_ge in Ej.
    assert ((j <? Nat.min len (List.length vs - i))%nat = false) as ->
      by (apply Nat.ltb_ge; lia).
    reflexivity.
Qed.

Lemma cumprod_from_fin (acc : Q) (gs : list Q) :
  cumprod_from (Fin acc) (map Fin gs) = map Fin (Qcumprod_from acc gs).
Proof.
  revert acc. induction gs as [|g gs IH]; intro acc; [reflexivity|].
  cbn [map cumprod_from Qcumprod_from fmul]. rewrite IH. reflexivity.
Qed.

Lemma Qgrowth_ratio (vs : list Q) (p : nat) :
  ~ value_at vs p == 0 ->
  Qgrowth vs (S p) == value_at vs (S p) / value_at vs p.
Proof.
  intro Hnz. unfold Qgrowth, qreturn. field. exact Hnz.
Qed.

(** The running product of the growth factors of rows [s .. s+m-1]
    telescopes: its cell [k] is the price of row [s + k] over the price of
    row [s - 1]. *)
Lemma growth_telescopes (vs : list Q) (m : nat) :
  Forall (fun v => ~ v == 0) vs ->
  forall (s : nat) (acc : Q) (k : nat) (x : Q),
    (1 <= s)%nat -> (s + m <= List.length vs)%nat ->
    nth_error (Qcumprod_from acc (map (Qgrowth vs) (seq s m))) k = Some x ->
    x == acc * (value_at vs (s + k) / value_at vs (s - 1)).
Proof.
  intro Hnz. induction m as [|m IH]; intros s acc k x Hs Hm Hx.
  - destruct k; discriminate Hx.
  - destruct s as [|p]; [lia|].
    cbn [seq map Qcumprod_from] in Hx.
    assert (~ value_at vs p == 0) as Hp by (apply nonzero_at; [exact Hnz|lia]).
    assert (~ value_at vs (S p) == 0) as Hsp
      by (apply nonzero_at; [exact Hnz|lia]).
    replace (S p - 1)%nat with p by lia.
    destruct k as [|k]; cbn [nth_error] in Hx.
    + injection Hx as <-. rewrite Nat.add_0_r.
      rewrite (Qgrowth_ratio vs p Hp). reflexivity.
    + apply (IH (S (S p)) _ k x) in Hx; [|lia|lia].
      replace (S (S p) - 1)%nat with (S p) in Hx by lia.
      replace (S p + S k)%nat with (S (S p) + k)%nat by lia.
      rewrite Hx, (Qgrowth_ratio vs p Hp). field. split; assumption.
Qed.

Lemma cumulative_returns_block (vs : list Q) (i len : nat) :
  Forall (fun v => ~ v == 0) vs -> (1 <= i)%nat ->
  cumulative_returns (firstn len (skipn i (Daily_Return_col (map Fin vs))))
  = map Fin
      (Qcumprod_from 1
         (map (Qgrowth vs) (seq i (Nat.min len (List.length vs - i))))).
Proof.
  intros Hnz Hi. unfold cumulative_returns, cumprod.
  rewrite (returns_block vs i len Hnz Hi), dropna_fin.
  rewrite <- cumprod_from_fin. f_equal.
  rewrite !map_map. apply map_ext. intro t. reflexivity.
Qed.

(** The cumulative return is measured from the day before the block: on
    prices that are never zero, cell [k] of the cumulative returns of the
    rows [i, i+1, ...] of a ticker is the price of its row over the price
    of row [i - 1]; only for a block that starts at the ticker's first row
    (whose own return is missing) is the base the first price of the
    block. *)
Theorem cumulative_return_telescopes (vs : list Q) (i len k : nat)
    (x : pyfloat) :
  Forall (fun v => ~ v == 0) vs ->
  nth_error
    (cumulative_returns
       (firstn len (skipn i (Daily_Return_col (map Fin vs))))) k = Some x ->
  feq x (Fin (value_at vs (Nat.max i 1 + k) / value_at vs (i - 1))).
Proof.
  intros Hnz Hx.
  assert (forall i' len', (1 <= i')%nat ->
            nth_error
              (cumulative_returns
                 (firstn len' (skipn i' (Daily_Return_col (map Fin vs)))))
              k = Some x ->
            feq x (Fin (value_at vs (i' + k) / value_at vs (i' - 1))))
    as Hblock.
  { intros i' len' Hi' H.
    rewrite (cumulative_returns_block vs i' len' Hnz Hi') in H.
    rewrite nth_error_map in H.
    destruct (nth_error (Qcumprod_from 1 _) k) as [q|] eqn:Eq;
      cbn [option_map] in H; [|discriminate H].
    injection H as <-. simpl.
    assert (i' <= List.length vs)%nat as Hle.
    { destruct (Nat.le_gt_cases i' (List.length vs)) as [Hle|Hgt];
        [exact Hle|].
      replace (Nat.min len' (List.length vs - i')) with 0%nat in Eq by lia.
      destruct k; discriminate Eq. }
    rewrite (growth_telescopes vs (Nat.min len' (List.length vs - i')) Hnz
               i' 1 k q Hi' ltac:(lia) Eq).
    ring. }
  destruct i as [|i].
  - destruct len as [|len]; [destruct k; discriminate Hx|].
    destruct (Daily_Return_col (map Fin vs)) as [|d0 rest] eqn:Edr;
      [destruct k; discriminate Hx|].
    assert (d0 = NaN) as ->.
    { destruct vs as [|v vs']; [discriminate Edr|].
      pose proof (nth_error_Daily_Return_fin (v :: vs') 0
                    ltac:(simpl; lia)) as H0.
      rewrite Edr in H0. injection H0 as ->. reflexivity. }
    assert (cumulative_returns (firstn (S len) (skipn 0 (NaN :: rest)))
            = cumulative_returns (firstn len (skipn 1 (NaN :: rest)))) as E
      by reflexivity.
    rewrite E in Hx.
    apply (Hblock 1%nat len (le_n 1) Hx).
  - replace (Nat.max (S i) 1) with (S i) by lia.
    apply (Hblock (S i) len ltac:(lia) Hx).
Qed.

(** Prices 100, 110, 99, 120: from row 1 on, the cumulative returns are
    measured against the price 100 of row 0. *)
Lemma cumulative_return_telescopes_witness :
  feq (Fin (1306800000000 # 1089000000000))
      (Fin (value_at [100; 110; 99; 120] (Nat.max 1 1 + 2)
            / value_at [100; 110; 99; 120] (1 - 1))).
Proof.
  refine (cumulative_return_telescopes [100; 110; 99; 120] 1 3 2
            (Fin (1306800000000 # 1089000000000)) _ _).
  - repeat constructor; intro H; discriminate H.
  - vm_compute. reflexivity.
Defined.

End Performance.

(** ** Loading the sales table: [SalesPerformanceAnalysis._prepare_data] *)

Module SalesPrep.
Local Open Scope string_scope.

(** A row of the table as loaded: the five columns [_prepare_data] and the
    campaign analysis read.  A cell of a column the table lacks is not
    read. *)
Record raw_sale : Type := {
  campaign_id : option string;
  region : option string;
  quantity : pyfloat;
  price : pyfloat;
  sales_amount : pyfloat
}.

(** The table: which of the columns it has, and its rows. *)
Record raw_frame : Type := {
  has_campaign_id : bool;
  has_region : bool;
  has_quantity : bool;
  has_price : bool;
  has_sales_amount : bool;
  rows : list raw_sale
}.

Definition fillna_with (default : string) (cell : option string)
  : option string :=
  match cell with
  | Some v => Some v
  | None => Some default
  end.

(** [_prepare_data], the date parts left out: [sales_amount] is computed
    from [quantity * price] when the table lacks it and has both; missing
    campaigns become "No Campaign" and missing regions "Unknown" ([fillna]
    skips a column the table lacks). *)
Definition _prepare_data (data : raw_frame) : raw_frame :=
  let compute :=
    negb (has_sales_amount data) && has_quantity data && has_price data in
  {| has_campaign_id := has_campaign_id data;
     has_region := has_region data;
     has_quantity := has_quantity data;
     has_price := has_price data;
     has_sales_amount := has_sales_amount data || compute;
     rows :=
       map (fun r =>
              {| campaign_id :=
                   if has_campaign_id data
                   then fillna_with "No Campaign" (campaign_id r)
                   else campaign_id r;
                 region :=
                   if has_region data
                   then fillna_with "Unknown" (region r)
                   else region r;
                 quantity := quantity r;
                 price := price r;
                 sales_amount :=
                   if compute then fmul (quantity r) (price r)
                   else sales_amount r |})
           (rows data) |}.

(** The two columns the campaign analysis reads. *)
Definition campaign_frame (data : raw_frame) : Campaign.DataFrame :=
  {| Campaign.has_campaign_id := has_campaign_id data;
     Campaign.records :=
       map (fun r => {| Campaign.campaign_id := campaign_id r;
                        Campaign.sales_amount := sales_amount r |})
           (rows data) |}.

(** The analysis on the table as loaded.  After its own test for the
    [campaign_id] column, [groupby('campaign_id')['sales_amount']] raises a
    [KeyError] when the table has no [sales_amount] column; with both
    columns the analysis runs on them. *)
Definition marketing_campaign_impact (data : option raw_frame)
  : Campaign.result Campaign.campaign_table :=
  match data with
  | None =>
      Campaign.ValueError "Data not loaded or missing campaign information"
  | Some df =>
      if negb (has_campaign_id df)
      then Campaign.ValueError
             "Data not loaded or missing campaign information"
      else if negb (has_sales_amount df)
      then Campaign.KeyError "Column not found: sales_amount"
      else Campaign.marketing_campaign_impact (Some (campaign_frame df))
  end.

Lemma campaign_index_keys (rs : list Campaign.sale) :
  Permutation (map Campaign.campaign (Campaign.campaign_aggregates rs))
              (Campaign.campaign_keys rs).
Proof.
  unfold Campaign.campaign_aggregates.
  eapply perm_trans.
  - apply Permutation_map, SeriesFacts.sort_by_perm.
  - rewrite map_map. cbn [Campaign.campaign Campaign.agg_row].
    rewrite map_id. apply Permutation_refl.
Qed.

(** The errors of [marketing_campaign_impact], on a table whose
    [sales_amount] column, when it has one, is numeric: the [ValueError] is
    raised exactly when the data is not loaded or has no [campaign_id]
    column; a [KeyError] is raised exactly when the table has a
    [campaign_id] but no [sales_amount] column, and it names that column
    (the lookup of the baseline row never fails); with both columns a table
    is returned, with one row for each distinct campaign of the data. *)
Theorem impact_errors (data : option raw_frame) :
  match marketing_campaign_impact data with
  | Campaign.Ok res =>
      exists df,
        data = Some df /\
        has_campaign_id df = true /\ has_sales_amount df = true /\
        Permutation
          (map Campaign.campaign (Campaign.table res))
          (Campaign.campaign_keys (Campaign.records (campaign_frame df)))
  | Campaign.ValueError _ =>
      data = None \/ exists df, data = Some df /\ has_campaign_id df = false
  | Campaign.KeyError label =>
      label = "Column not found: sales_amount" /\
      exists df,
        data = Some df /\
        has_campaign_id df = true /\ has_sales_amount df = false
  end.
Proof.
  destruct data as [df|]; [|left; reflexivity].
  unfold marketing_campaign_impact.
  destruct (has_campaign_id df) eqn:Hcol; cbn [negb];
    [|right; exists df; auto].
  destruct (has_sales_amount df) eqn:Hamt; cbn [negb];
    [|split; [reflexivity|exists df; auto]].
  pose proof (CampaignInvariants.impact_of_frame (Some (campaign_frame df)))
    as H.
  destruct (Campaign.marketing_campaign_impact (Some (campaign_frame df)))
    as [res|msg|label].
  - destruct H as (df' & E & _ & Htable). injection E as <-.
    exists df. repeat split; try assumption.
    rewrite Htable. apply campaign_index_keys.
  - destruct H as [H|(df' & E & H)]; [discriminate H|].
    injection E as <-. cbn in H. congruence.
  - contradiction.
Qed.

(** Sales without a campaign are the baseline: once a table with a
    [campaign_id] column is prepared, every row has a campaign.  When the
    table has no [sales_amount] column and lacks [quantity] or [price] to
    compute it from, the analysis of the prepared table raises a
    [KeyError]; otherwise, when some row had no campaign, the analysis has a
    "No Campaign" row and computes the lift column. *)
Theorem missing_campaign_becomes_baseline (data : raw_frame) :
  has_campaign_id data = true ->
  let prepared := _prepare_data data in
  Forall (fun r => campaign_id r <> None) (rows prepared) /\
  (has_sales_amount data = false ->
   has_quantity data && has_price data = false ->
   marketing_campaign_impact (Some prepared)
     = Campaign.KeyError "Column not found: sales_amount") /\
  (has_sales_amount data || (has_quantity data && has_price data) = true ->
   In None (map campaign_id (rows data)) ->
   exists res lifts,
     marketing_campaign_impact (Some prepared) = Campaign.Ok res /\
     Campaign.sales_lift_pct res = Some lifts /\
     List.length lifts = List.length (Campaign.table res) /\
     In "No Campaign" (map Campaign.campaign (Campaign.table res))).
Proof.
  intros Hcol prepared. split; [|split].
  - apply Forall_forall. intros r Hr.
    unfold prepared, _prepare_data in Hr. cbn in Hr.
    rewrite Hcol in Hr. apply in_map_iff in Hr.
    destruct Hr as (r0 & <- & _). cbn.
    destruct (campaign_id r0); discriminate.
  - intros Hamt Hqp.
    unfold marketing_campaign_impact, prepared, _prepare_data.
    cbn [has_campaign_id has_sales_amount].
    rewrite Hcol, Hamt. cbn [negb andb orb].
    rewrite Hqp. reflexivity.
  - intros Hamt Hnone.
    assert (In (Some "No Campaign")
               (map Campaign.campaign_id
                    (Campaign.records (campaign_frame prepared))))
      as Hbase.
    { apply in_map_iff in Hnone. destruct Hnone as (r0 & E & Hr0).
      unfold prepared, campaign_frame, _prepare_data. cbn.
      rewrite Hcol, !map_map. apply in_map_iff. exists r0.
      split; [|exact Hr0]. cbn. rewrite E. reflexivity. }
    unfold marketing_campaign_impact.
    assert (has_campaign_id prepared = true) as -> by exact Hcol.
    assert (has_sales_amount prepared = true) as ->.
    { unfold prepared, _prepare_data. cbn [has_sales_amount].
      destruct (has_sales_amount data), (has_quantity data),
        (has_price data); try reflexivity; discriminate Hamt. }
    cbn [negb].
    unfold Campaign.marketing_campaign_impact.
    assert (Campaign.has_campaign_id (campaign_frame prepared) = true)
      as -> by exact Hcol.
    cbn [negb].
    rewrite (proj2 (Campaign.in_index_iff _ _) Hbase),
            (Campaign.loc_aggregates _ _ Hbase).
    do 2 eexists. split; [reflexivity|]. cbn.
    split; [reflexivity|]. split; [apply length_map|].
    apply in_map_iff.
    exists (Campaign.agg_row (Campaign.records (campaign_frame prepared))
                             "No Campaign").
    split; [reflexivity|].
    apply Campaign.campaign_aggregates_In. cbn. auto.
Qed.

(** A table without [sales_amount], one of its rows without campaign. *)
Definition loaded_sales : raw_frame :=
  {| has_campaign_id := true; has_region := true;
     has_quantity := true; has_price := true; has_sales_amount := false;
     rows :=
       [ {| campaign_id := Some "Summer Sale"; region := Some "North";
            quantity := Fin 2; price := Fin 5; sales_amount := NaN |};
         {| campaign_id := None; region := None;
            quantity := Fin 3; price := Fin 4; sales_amount := NaN |} ] |}.

Lemma missing_campaign_becomes_baseline_witness :
  let prepared := _prepare_data loaded_sales in
  Forall (fun r => campaign_id r <> None) (rows prepared) /\
  (has_sales_amount loaded_sales = false ->
   has_quantity loaded_sales && has_price loaded_sales = false ->
   marketing_campaign_impact (Some prepared)
     = Campaign.KeyError "Column not found: sales_amount") /\
  (has_sales_amount loaded_sales
     || (has_quantity loaded_sales && has_price loaded_sales) = true ->
   In None (map campaign_id (rows loaded_sales)) ->
   exists res lifts,
     marketing_campaign_impact (Some prepared) = Campaign.Ok res /\
     Campaign.sales_lift_pct res = Some lifts /\
     List.length lifts = List.length (Campaign.table res) /\
     In "No Campaign" (map Campaign.campaign (Campaign.table res))).
Proof.
  apply (missing_campaign_becomes_baseline loaded_sales). reflexivity.
Defined.

(** The same table without its [price] column: the amount cannot be
    computed and the analysis stops at the missing column. *)
Example sales_without_amount :
  marketing_campaign_impact
    (Some (_prepare_data
             {| has_campaign_id := true; has_region := true;
                has_quantity := true; has_price := false;
                has_sales_amount := false;
                rows := rows loaded_sales |}))
  = Campaign.KeyError "Column not found: sales_amount".
Proof. reflexivity. Qed.

End SalesPrep.
